(** * Word.tsx: the session word loader and the word browser

    A shallow embedding of [src/pages/Word.tsx].  The component is a React
    function component whose handlers are [async] functions talking to three
    HTTP services.  The embedding is a state-and-exception monad over a
    [World] that holds the component state (the [useState] cells) and the
    trace of external effects (network round trips, timers, console, alerts).
    The three services are an environment: each answer may depend on the whole
    history of effects so far. *)

From Stdlib Require Import List String Ascii ZArith NArith Arith Lia Bool DecimalString.
From Equations Require Import Equations.
Import ListNotations.
Open Scope string_scope.

Set Implicit Arguments.

(** ** Data *)

(** A thrown JavaScript [Error]; the code reads nothing but [e.message]. *)
Record JsError := Error { message : string }.

(** What the code observes of a [fetch] response: [response.ok],
    [response.statusText] and the outcome of [await response.json()], which
    rejects ([inl]) when the body cannot be read. *)
Record Response (Body : Type) := {
  ok : bool;
  statusText : string;
  json : JsError + Body
}.

(** [await fetch(...)] either rejects (network failure) or yields a response. *)
Inductive Fetched (Body : Type) :=
| Rejected (e : JsError)
| Resolved (response : Response Body).
Arguments Rejected {Body} e.

(** What the code observes of a body of the translation endpoint.
    [errorMessage] is the evaluation of
    [errorData.error ? errorData.error.message : <statusText>]: it throws
    ([inl]), or [errorData.error] is truthy with the given message text
    ([inr (Some m)]), or it is falsy ([inr None]).  [translatedText] is the
    evaluation of [data.data.translations[0].translatedText], which throws a
    [TypeError] ([inl]) when the path is absent. *)
Record TranslateBody := {
  errorMessage : JsError + option string;
  translatedText : JsError + string
}.

(** [interface WordData { english: string; korean: string }] *)
Record WordData := { english : string; korean : string }.

(** External effects, in the order the program performs them. The body of the
    word endpoint is read only through [words[0]]. *)
Inductive Event :=
| EvWordRequest (answer : Fetched string)
| EvDictRequest (randomWord : string) (answer : Fetched unit)
| EvTranslateRequest (key q : string) (answer : Fetched TranslateBody)
| EvDelay (ms : Z)
| EvConsoleError (text : string) (e : option JsError)
| EvConsoleWarn (text : string)
| EvAlert (text : string)
| EvNavigate (path : string) (words : option (list WordData)).

(** The [useState] cells of the component. [None] stands for [null]. *)
Record WordState := {
  currentScreen : Z;
  wordCount : Z;
  currentWordIndex : Z;
  currentWordData : option WordData;
  isLoading : bool;
  loadingMessage : string;
  error : option string;
  allWordsForSession : list WordData
}.

(** [useState] initial values. *)
Definition initialState : WordState :=
  {| currentScreen := 1; wordCount := 0; currentWordIndex := 0;
     currentWordData := None; isLoading := false;
     loadingMessage := EmptyString; error := None;
     allWordsForSession := [] |}.

(** The trace is kept newest first. *)
Record World := { page : WordState; trace : list Event }.

(** The environment of the component: the configured credential
    ([import.meta.env.VITE_GOOGLE_TRANSLATE_API_KEY], [None] when undefined)
    and the three services, each a function of the history.  For the word
    endpoint, [json = inr word] says that the body parses and [words[0]] is
    the string [word]; a body that cannot be read is [inl]. *)
Record Env := {
  GOOGLE_TRANSLATE_API_KEY : option string;
  wordApi : list Event -> Fetched string;
  dictionaryApi : list Event -> string -> Fetched unit;
  translationApi : list Event -> string -> string -> Fetched TranslateBody
}.

(** ** The monad *)

Inductive Result (A : Type) :=
| Return (a : A)
| Throw (e : JsError).
Arguments Throw {A} e.

Definition M (A : Type) : Type := World -> Result A * World.

Definition ret {A} (a : A) : M A := fun w => (Return a, w).

Definition throw {A} (e : JsError) : M A := fun w => (Throw e, w).

Definition bind {A B} (m : M A) (k : A -> M B) : M B :=
  fun w =>
    match m w with
    | (Return a, w') => k a w'
    | (Throw e, w') => (Throw e, w')
    end.

(** [try { body } catch (e) { handler }] *)
Definition try_catch {A} (body : M A) (handler : JsError -> M A) : M A :=
  fun w =>
    match body w with
    | (Return a, w') => (Return a, w')
    | (Throw e, w') => handler e w'
    end.

Declare Scope js_scope.
Delimit Scope js_scope with js.
Notation "x <- m ;; k" := (bind m (fun x => k))
  (at level 61, m at next level, right associativity) : js_scope.
Notation "m ;; k" := (bind m (fun _ => k))
  (at level 61, right associativity) : js_scope.
Open Scope js_scope.

Definition emit (ev : Event) : M unit :=
  fun w => (Return tt, {| page := page w; trace := ev :: trace w |}).

Definition modify (f : WordState -> WordState) : M unit :=
  fun w => (Return tt, {| page := f (page w); trace := trace w |}).

Definition gets {A} (f : WordState -> A) : M A :=
  fun w => (Return (f (page w)), w).

(** [const delay = (ms) => new Promise((resolve) => setTimeout(resolve, ms))] *)
Definition delay (ms : Z) : M unit := emit (EvDelay ms).

Definition console_error (text : string) (e : option JsError) : M unit :=
  emit (EvConsoleError text e).

Definition console_warn (text : string) : M unit := emit (EvConsoleWarn text).

Definition alert (text : string) : M unit := emit (EvAlert text).

Definition navigate (path : string) (words : option (list WordData)) : M unit :=
  emit (EvNavigate path words).

(** The state setters. *)
Definition setCurrentScreen (v : Z) : M unit :=
  modify (fun s =>
    {| currentScreen := v; wordCount := wordCount s;
       currentWordIndex := currentWordIndex s;
       currentWordData := currentWordData s; isLoading := isLoading s;
       loadingMessage := loadingMessage s; error := error s;
       allWordsForSession := allWordsForSession s |}).

Definition setWordCount (v : Z) : M unit :=
  modify (fun s =>
    {| currentScreen := currentScreen s; wordCount := v;
       currentWordIndex := currentWordIndex s;
       currentWordData := currentWordData s; isLoading := isLoading s;
       loadingMessage := loadingMessage s; error := error s;
       allWordsForSession := allWordsForSession s |}).

Definition setCurrentWordIndex (v : Z) : M unit :=
  modify (fun s =>
    {| currentScreen := currentScreen s; wordCount := wordCount s;
       currentWordIndex := v;
       currentWordData := currentWordData s; isLoading := isLoading s;
       loadingMessage := loadingMessage s; error := error s;
       allWordsForSession := allWordsForSession s |}).

Definition setCurrentWordData (v : option WordData) : M unit :=
  modify (fun s =>
    {| currentScreen := currentScreen s; wordCount := wordCount s;
       currentWordIndex := currentWordIndex s;
       currentWordData := v; isLoading := isLoading s;
       loadingMessage := loadingMessage s; error := error s;
       allWordsForSession := allWordsForSession s |}).

Definition setIsLoading (v : bool) : M unit :=
  modify (fun s =>
    {| currentScreen := currentScreen s; wordCount := wordCount s;
       currentWordIndex := currentWordIndex s;
       currentWordData := currentWordData s; isLoading := v;
       loadingMessage := loadingMessage s; error := error s;
       allWordsForSession := allWordsForSession s |}).

Definition setLoadingMessage (v : string) : M unit :=
  modify (fun s =>
    {| currentScreen := currentScreen s; wordCount := wordCount s;
       currentWordIndex := currentWordIndex s;
       currentWordData := currentWordData s; isLoading := isLoading s;
       loadingMessage := v; error := error s;
       allWordsForSession := allWordsForSession s |}).

Definition setError (v : option string) : M unit :=
  modify (fun s =>
    {| currentScreen := currentScreen s; wordCount := wordCount s;
       currentWordIndex := currentWordIndex s;
       currentWordData := currentWordData s; isLoading := isLoading s;
       loadingMessage := loadingMessage s; error := v;
       allWordsForSession := allWordsForSession s |}).

Definition setAllWordsForSession (v : list WordData) : M unit :=
  modify (fun s =>
    {| currentScreen := currentScreen s; wordCount := wordCount s;
       currentWordIndex := currentWordIndex s;
       currentWordData := currentWordData s; isLoading := isLoading s;
       loadingMessage := loadingMessage s; error := error s;
       allWordsForSession := v |}).

(** ** JavaScript string and array operations *)

(** [s.includes(pat)] *)
Fixpoint includes (s pat : string) : bool :=
  if String.prefix pat s then true
  else match s with
       | EmptyString => false
       | String _ rest => includes rest pat
       end.

(** A string of the model holds the UTF-8 bytes of the JavaScript string, as
    the literals of this file do (and the WTF-8 bytes of a lone surrogate),
    whereas JavaScript indexes a string by UTF-16 code units. *)

(** The number of bytes of the UTF-8 sequence that a lead byte introduces. *)
Definition utf8_width (lead : ascii) : nat :=
  let b := nat_of_ascii lead in
  if Nat.ltb b 192 then 1
  else if Nat.ltb b 224 then 2
  else if Nat.ltb b 240 then 3
  else 4.

(** The number of UTF-16 code units of the character a lead byte introduces:
    2 (a surrogate pair) for a 4-byte sequence, else 1. *)
Definition utf16_units (lead : ascii) : nat :=
  if Nat.eqb (utf8_width lead) 4 then 2 else 1.

(** The bytes of the high surrogate alone, for the character whose 4-byte
    sequence is [lead] followed by [rest]. *)
Definition lone_high_surrogate (lead : ascii) (rest : string) : string :=
  let b1 := match rest with String b _ => N_of_ascii b | EmptyString => 0%N end in
  let b2 := match rest with
            | String _ (String b _) => N_of_ascii b
            | _ => 0%N
            end in
  let high := (55296 + (N_of_ascii lead mod 8) * 256 + (b1 mod 64) * 4
               + (b2 mod 64) / 16 - 64)%N in
  String (ascii_of_N 237)
    (String (ascii_of_N (128 + (high / 64) mod 64))
       (String (ascii_of_N (128 + high mod 64)) EmptyString)).

(** The first [units] code units of [s]; [pending] bytes of a character
    already taken are still to be copied.  A cut between the two code units
    of a surrogate pair leaves the high surrogate. *)
Fixpoint utf16_prefix (units pending : nat) (s : string) : string :=
  match s with
  | EmptyString => EmptyString
  | String c rest =>
      match pending with
      | S more => String c (utf16_prefix units more rest)
      | 0 =>
          match units with
          | 0 => EmptyString
          | S units' =>
              if Nat.eqb (utf8_width c) 4 then
                match units' with
                | 0 => lone_high_surrogate c rest
                | S units'' => String c (utf16_prefix units'' 3 rest)
                end
              else String c (utf16_prefix units' (utf8_width c - 1) rest)
          end
      end
  end.

(** The number of code units of [s], after [pending] bytes of a character
    already counted. *)
Fixpoint utf16_count (pending : nat) (s : string) : nat :=
  match s with
  | EmptyString => 0
  | String c rest =>
      match pending with
      | S more => utf16_count more rest
      | 0 => utf16_units c + utf16_count (utf8_width c - 1) rest
      end
  end.

(** [s.length] *)
Definition utf16_length (s : string) : nat := utf16_count 0 s.

(** [s.substring(0, n)]: the first [n] code units of [s]. *)
Definition substring0 (n : nat) (s : string) : string := utf16_prefix n 0 s.

(** JavaScript truthiness of a string: only the empty string is falsy. *)
Definition truthy (s : string) : bool :=
  match s with
  | EmptyString => false
  | String _ _ => true
  end.

(** [!GOOGLE_TRANSLATE_API_KEY]: undefined or the empty string. *)
Definition key_missing (k : option string) : bool :=
  match k with
  | None => true
  | Some s => negb (truthy s)
  end.

(** [`${n}`] for an integer [n]. *)
Definition string_of_nat (n : nat) : string :=
  NilEmpty.string_of_uint (Nat.to_uint n).

Definition string_of_Z (z : Z) : string :=
  NilEmpty.string_of_int (Z.to_int z).

(** [xs[i]]: undefined ([None]) outside the array. *)
Definition array_get {A} (xs : list A) (i : Z) : option A :=
  if (i <? 0)%Z then None else nth_error xs (Z.to_nat i).

(** [xs.push(x)] *)
Definition push {A} (xs : list A) (x : A) : list A := xs ++ [x].

Section Component.

Variable env : Env.

(** ** The network *)

(** [await fetch("https://random-word-api.herokuapp.com/word?number=1")] *)
Definition fetch_word : M (Response string) :=
  fun w =>
    let answer := wordApi env (trace w) in
    let w' := {| page := page w; trace := EvWordRequest answer :: trace w |} in
    match answer with
    | Rejected e => (Throw e, w')
    | Resolved response => (Return response, w')
    end.

(** [await fetch(`https://api.dictionaryapi.dev/api/v2/entries/en/${randomWord}`)] *)
Definition fetch_dictionary (randomWord : string) : M (Response unit) :=
  fun w =>
    let answer := dictionaryApi env (trace w) randomWord in
    let w' := {| page := page w;
                 trace := EvDictRequest randomWord answer :: trace w |} in
    match answer with
    | Rejected e => (Throw e, w')
    | Resolved response => (Return response, w')
    end.

(** The POST to the translation endpoint, with the key in the query and
    [q: englishWord] in the body. *)
Definition fetch_translation (key englishWord : string) : M (Response TranslateBody) :=
  fun w =>
    let answer := translationApi env (trace w) key englishWord in
    let w' := {| page := page w;
                 trace := EvTranslateRequest key englishWord answer :: trace w |} in
    match answer with
    | Rejected e => (Throw e, w')
    | Resolved response => (Return response, w')
    end.

(** [await response.json()] *)
Definition response_json {Body} (response : Response Body) : M Body :=
  match json response with
  | inl e => throw e
  | inr body => ret body
  end.

(** ** translateEnglishToKorean *)

Definition MSG_KEY_MISSING : string := "번역 API 키 없음".
Definition MSG_KEY_INVALID : string := "번역 실패: API 키가 유효하지 않습니다.".
Definition MSG_QUOTA : string := "번역 실패: 일일 사용량 한도 초과.".
Definition MSG_FAILED_PREFIX : string := "번역 실패: ".

(** The [catch (e)] block of [translateEnglishToKorean]. *)
Definition translate_catch (e : JsError) : M string :=
  console_error "Error during translation:" (Some e) ;;
  if includes (message e) "API key not valid" then ret MSG_KEY_INVALID
  else if includes (message e) "daily limit exceeded" then ret MSG_QUOTA
  else ret (MSG_FAILED_PREFIX ++ message e).

(** The [try] block of [translateEnglishToKorean]. *)
Definition translate_try (key englishWord : string) : M string :=
  response <- fetch_translation key englishWord ;;
  if negb (ok response) then
    errorData <- response_json response ;;
    match errorMessage errorData with
    | inl typeError => throw typeError
    | inr (Some m) => throw (Error ("Translation API error: " ++ m))
    | inr None => throw (Error ("Translation API error: " ++ statusText response))
    end
  else
    data <- response_json response ;;
    match translatedText data with
    | inl typeError => throw typeError
    | inr text => ret text
    end.

Definition translateEnglishToKorean (englishWord : string) : M string :=
  match GOOGLE_TRANSLATE_API_KEY env with
  | Some key =>
      if truthy key then
        try_catch (translate_try key englishWord) translate_catch
      else
        console_error "Google Translate API Key is not set." None ;;
        ret MSG_KEY_MISSING
  | None =>
      console_error "Google Translate API Key is not set." None ;;
      ret MSG_KEY_MISSING
  end.

(** ** fetchWordFromAPI *)

(** Each of the three retry sites:
    [if (retryCount < 3) { await delay(1000); return fetchWordFromAPI(retryCount + 1); }
     throw otherwise;]
    The call is returned without [await]: its promise leaves the [try] block,
    so a rejection of the inner call is not caught by the outer [catch].
    [inright] stands for that returned promise and carries the guard. *)
Definition retry_or_throw (retryCount : nat) (otherwise : JsError)
  : M (string + {retryCount < 3}) :=
  match lt_dec retryCount 3 with
  | left Hlt => delay 1000 ;; ret (inright Hlt)
  | right _ => throw otherwise
  end.

(** The [try] block. *)
Definition fetchWord_try (retryCount : nat) : M (string + {retryCount < 3}) :=
  response <- fetch_word ;;
  if negb (ok response) then
    retry_or_throw retryCount (Error "Could not fetch a random word.")
  else
    randomWord <- response_json response ;;
    dictResponse <- fetch_dictionary randomWord ;;
    if negb (ok dictResponse) then
      retry_or_throw retryCount (Error "Could not find a valid word.")
    else ret (inleft randomWord).

(** The [catch (error)] block. *)
Definition fetchWord_catch (retryCount : nat) (error : JsError)
  : M (string + {retryCount < 3}) :=
  retry_or_throw retryCount error.

Equations? fetchWordFromAPI (retryCount : nat) (w : World)
  : Result string * World by wf (3 - retryCount) lt :=
fetchWordFromAPI retryCount w
  with try_catch (fetchWord_try retryCount) (fetchWord_catch retryCount) w := {
  | (Return (inleft randomWord), w') => (Return randomWord, w');
  | (Return (inright Hlt), w') => fetchWordFromAPI (retryCount + 1) w';
  | (Throw e, w') => (Throw e, w') }.
Proof. change (3 - (retryCount + 1) < 3 - retryCount). lia. Qed.

(** ** fetchAndTranslateWords *)

Definition MAX_ATTEMPTS_PER_WORD : nat := 5.

Definition MSG_PARTIAL_FAILURE : string :=
  "일부 단어 로딩에 실패했습니다. 콘솔을 확인해주세요.".

Definition MSG_EMPTY_LIST : string :=
  "단어를 불러오는 데 실패했습니다. 단어 목록이 비어 있습니다.".

(** The pair pushed when the last attempt of a slot fails. *)
Definition placeholder (e : JsError) : WordData :=
  {| english := "오류 단어";
     korean := "로딩 실패: "
               ++ (if truthy (message e) then substring0 30 (message e)
                   else "알 수 없는 오류")
               ++ "..." |}.

(** [`단어 ${i + 1}개째 불러오는 중...`] *)
Definition loadingWord (i : nat) : string :=
  "단어 " ++ string_of_nat (i + 1) ++ "개째 불러오는 중...".

(** [`'${englishWord}' 번역 중... (${i + 1}/${count})`] *)
Definition loadingTranslation (englishWord : string) (i : nat) (count : Z)
  : string :=
  "'" ++ englishWord ++ "' 번역 중... ("
  ++ string_of_nat (i + 1) ++ "/" ++ string_of_Z count ++ ")".

(** The [try] block of the [while] body. *)
Definition attempt_try (i : nat) (count : Z) (fetchedWords : list WordData)
  : M (list WordData * bool) :=
  englishWord <- fetchWordFromAPI 0 ;;
  setLoadingMessage (loadingTranslation englishWord i count) ;;
  koreanTranslation <- translateEnglishToKorean englishWord ;;
  let fetchedWords :=
    push fetchedWords {| english := englishWord; korean := koreanTranslation |} in
  let foundValidWord := true in
  delay 1000 ;;
  ret (fetchedWords, foundValidWord).

(** The [catch (e)] block of the [while] body. *)
Definition attempt_catch (i attempts : nat) (fetchedWords : list WordData)
    (foundValidWord : bool) (e : JsError) : M (list WordData * bool) :=
  console_error ("Error fetching and translating word " ++ string_of_nat (i + 1)
                 ++ " (attempt " ++ string_of_nat attempts ++ "):") (Some e) ;;
  locals <- (if Nat.leb MAX_ATTEMPTS_PER_WORD attempts then
               let fetchedWords := push fetchedWords (placeholder e) in
               setError (Some MSG_PARTIAL_FAILURE) ;;
               ret (fetchedWords, true)
             else ret (fetchedWords, foundValidWord)) ;;
  delay 1000 ;;
  ret locals.

(** The body of the [while] loop, entered after [attempts++]; it yields the
    new values of [fetchedWords] and [foundValidWord]. *)
Definition while_body (i : nat) (count : Z) (attempts : nat)
    (fetchedWords : list WordData) (foundValidWord : bool)
  : M (list WordData * bool) :=
  setLoadingMessage (loadingWord i) ;;
  try_catch (attempt_try i count fetchedWords)
            (attempt_catch i attempts fetchedWords foundValidWord).

(** [while (!foundValidWord && attempts < MAX_ATTEMPTS_PER_WORD) { attempts++; ... }]
    It yields the final [fetchedWords], [foundValidWord] and [attempts]. *)
Equations? while_loop (i : nat) (count : Z) (foundValidWord : bool)
    (attempts : nat) (fetchedWords : list WordData) (w : World)
  : Result (list WordData * bool * nat) * World
  by wf (MAX_ATTEMPTS_PER_WORD - attempts) lt :=
while_loop i count foundValidWord attempts fetchedWords w
  with negb foundValidWord, lt_dec attempts MAX_ATTEMPTS_PER_WORD := {
  | true, left Hlt
      with while_body i count (attempts + 1) fetchedWords foundValidWord w := {
      | (Return (fetchedWords', foundValidWord'), w') =>
          while_loop i count foundValidWord' (attempts + 1) fetchedWords' w';
      | (Throw e, w') => (Throw e, w') };
  | _, _ => (Return (fetchedWords, foundValidWord, attempts), w) }.
Proof.
  change (MAX_ATTEMPTS_PER_WORD - (attempts + 1) < MAX_ATTEMPTS_PER_WORD - attempts).
  lia.
Qed.

(** The body of the [for] loop: one slot. *)
Definition for_body (i : nat) (count : Z) (fetchedWords : list WordData)
  : M (list WordData) :=
  locals <- while_loop i count false 0 fetchedWords ;;
  let '(fetchedWords, foundValidWord, _) := locals in
  (if negb foundValidWord then
     console_warn ("Warning: Could not find a valid word after "
                   ++ string_of_nat MAX_ATTEMPTS_PER_WORD
                   ++ " attempts for word " ++ string_of_nat (i + 1) ++ ".")
   else ret tt) ;;
  ret fetchedWords.

(** [for (let i = 0; i < count; i++)], over the indices still to visit. *)
Fixpoint for_loop (indices : list nat) (count : Z) (fetchedWords : list WordData)
  : M (list WordData) :=
  match indices with
  | [] => ret fetchedWords
  | i :: rest =>
      fetchedWords <- for_body i count fetchedWords ;;
      for_loop rest count fetchedWords
  end.

Definition fetchAndTranslateWords (count : Z) : M unit :=
  setIsLoading true ;;
  setLoadingMessage "단어 불러오는 중..." ;;
  setError None ;;
  fetchedWords <- for_loop (seq 0 (Z.to_nat count)) count [] ;;
  setAllWordsForSession fetchedWords ;;
  (if Nat.ltb 0 (List.length fetchedWords) then
     setCurrentWordData (array_get fetchedWords 0)
   else
     setError (Some MSG_EMPTY_LIST) ;;
     setCurrentWordData None) ;;
  setIsLoading false ;;
  setLoadingMessage EmptyString.

(** ** The handlers *)

(** [setWordCount(Number(event.target.value))], for an integer value. *)
Definition handleWordCountChange (value : Z) : M unit := setWordCount value.

Definition handleStartClick : M unit :=
  wordCount <- gets wordCount ;;
  if (wordCount <=? 0)%Z then
    alert "학습할 단어 수를 1개 이상 입력해주세요!"
  else if key_missing (GOOGLE_TRANSLATE_API_KEY env) then
    alert "Google Translate API Key가 설정되지 않았습니다. .env 파일에 VITE_GOOGLE_TRANSLATE_API_KEY를 설정해주세요."
  else
    setCurrentWordIndex 0 ;;
    fetchAndTranslateWords wordCount ;;
    setCurrentScreen 2.

Definition handleNextWord : M unit :=
  currentWordIndex <- gets currentWordIndex ;;
  allWordsForSession <- gets allWordsForSession ;;
  let nextIndex := (currentWordIndex + 1)%Z in
  if (nextIndex <? Z.of_nat (List.length allWordsForSession))%Z then
    setCurrentWordIndex nextIndex ;;
    setCurrentWordData (array_get allWordsForSession nextIndex)
  else
    setCurrentScreen 3.

Definition handlePreviousWord : M unit :=
  currentWordIndex <- gets currentWordIndex ;;
  allWordsForSession <- gets allWordsForSession ;;
  if (currentWordIndex >? 0)%Z then
    let prevIndex := (currentWordIndex - 1)%Z in
    setCurrentWordIndex prevIndex ;;
    setCurrentWordData (array_get allWordsForSession prevIndex) ;;
    setError None
  else
    setError (Some "이전 단어가 없습니다.").

Definition handleTestClick : M unit :=
  allWordsForSession <- gets allWordsForSession ;;
  navigate "/test" (Some allWordsForSession).

Definition handleHomeClick : M unit := navigate "/home" None.

End Component.

(** * Notions for reasoning about traces *)

(** ** Counting events *)

Definition is_word_request (ev : Event) : bool :=
  match ev with EvWordRequest _ => true | _ => false end.

Definition is_dict_request (ev : Event) : bool :=
  match ev with EvDictRequest _ _ => true | _ => false end.

Definition is_translate_request (ev : Event) : bool :=
  match ev with EvTranslateRequest _ _ _ => true | _ => false end.

Definition is_delay (ev : Event) : bool :=
  match ev with EvDelay _ => true | _ => false end.

(** The dictionary gate accepted [word]: a dictionary round trip for [word]
    resolved with [response.ok]. *)
Definition accepts (word : string) (ev : Event) : bool :=
  match ev with
  | EvDictRequest randomWord (Resolved response) =>
      String.eqb randomWord word && ok response
  | _ => false
  end.

(** Some dictionary round trip was accepted. *)
Definition is_acceptance (ev : Event) : bool :=
  match ev with
  | EvDictRequest _ (Resolved response) => ok response
  | _ => false
  end.

(** The [console.error] of the [catch] block of the loader's [while] body. *)
Definition is_attempt_failure (ev : Event) : bool :=
  match ev with
  | EvConsoleError text (Some _) =>
      String.prefix "Error fetching and translating word " text
  | _ => false
  end.

Definition count_events (f : Event -> bool) (evs : list Event) : nat :=
  List.length (filter f evs).

(** ** The events of one call of fetchWordFromAPI *)

(** One invocation that does not return a word: the word round trip alone, or
    followed by a dictionary round trip that was not accepted. *)
Inductive failed_round : list Event -> Prop :=
| failed_word answer :
    failed_round [EvWordRequest answer]
| failed_dict randomWord answer dictAnswer :
    is_acceptance (EvDictRequest randomWord dictAnswer) = false ->
    failed_round [EvDictRequest randomWord dictAnswer; EvWordRequest answer].

(** The events of [fetchWordFromAPI(retryCount)], newest first, by result. *)
Inductive fetch_events : nat -> Result string -> list Event -> Prop :=
| fetch_returns retryCount randomWord response dictResponse :
    ok response = true ->
    json response = inr randomWord ->
    ok dictResponse = true ->
    fetch_events retryCount (Return randomWord)
      [EvDictRequest randomWord (Resolved dictResponse);
       EvWordRequest (Resolved response)]
| fetch_retries retryCount result round evs :
    retryCount < 3 ->
    failed_round round ->
    fetch_events (retryCount + 1) result evs ->
    fetch_events retryCount result (evs ++ EvDelay 1000 :: round)
| fetch_throws retryCount e round :
    ~ retryCount < 3 ->
    failed_round round ->
    fetch_events retryCount (Throw e) round.

(** ** The events of one call of translateEnglishToKorean *)

Inductive translate_events (key : option string) (englishWord : string)
  : list Event -> Prop :=
| translate_unconfigured :
    key_missing key = true ->
    translate_events key englishWord
      [EvConsoleError "Google Translate API Key is not set." None]
| translate_answered k answer :
    key = Some k ->
    truthy k = true ->
    translate_events key englishWord [EvTranslateRequest k englishWord answer]
| translate_caught k answer e :
    key = Some k ->
    truthy k = true ->
    translate_events key englishWord
      [EvConsoleError "Error during translation:" (Some e);
       EvTranslateRequest k englishWord answer].

(** ** The dictionary gate *)

(** Every translation request in the list (newest first) is for a word that an
    earlier dictionary round trip of the same list accepted. *)
Fixpoint gate_respected (evs : list Event) : Prop :=
  match evs with
  | [] => True
  | EvTranslateRequest _ q _ :: earlier =>
      existsb (accepts q) earlier = true /\ gate_respected earlier
  | _ :: earlier => gate_respected earlier
  end.

(** ** The outcome of one slot *)

(** The slot was filled by a word that the dictionary accepted during the
    slot and by what translateEnglishToKorean returned for it, after
    [made - 1] failed attempts. *)
Definition filled_by_fetch (env : Env) (made : nat) (pair : WordData)
    (evs : list Event) : Prop :=
  (exists w2 w3,
      translateEnglishToKorean env (english pair) w2 = (Return (korean pair), w3))
  /\ existsb (accepts (english pair)) evs = true
  /\ count_events is_attempt_failure evs = made - 1.

(** The slot was filled by the placeholder of the error [e] of the last of
    [made] failed attempts. *)
Definition filled_by_placeholder (made : nat) (pair : WordData)
    (evs : list Event) : Prop :=
  exists e text earlier,
    pair = placeholder e
    /\ evs = EvDelay 1000 :: EvConsoleError text (Some e) :: earlier
    /\ count_events is_attempt_failure evs = made
    /\ count_events is_acceptance evs = 0
    /\ count_events is_translate_request evs = 0.

(** The cells that loading does not touch: everything but [loadingMessage]
    and [error]. *)
Definition loading_frame (s s' : WordState) : Prop :=
  currentScreen s' = currentScreen s
  /\ wordCount s' = wordCount s
  /\ currentWordIndex s' = currentWordIndex s
  /\ currentWordData s' = currentWordData s
  /\ isLoading s' = isLoading s
  /\ allWordsForSession s' = allWordsForSession s.

(** A pair of the session list: a placeholder, or a word the dictionary
    accepted during the load together with what translateEnglishToKorean
    returned for it. *)
Definition slot_filled (env : Env) (evs : list Event) (pair : WordData) : Prop :=
  (exists e, pair = placeholder e)
  \/ (existsb (accepts (english pair)) evs = true
      /\ exists w2 w3,
           translateEnglishToKorean env (english pair) w2
           = (Return (korean pair), w3)).

(** [pat] occurs in [s]. *)
Definition contains (s pat : string) : Prop :=
  exists before after, s = before ++ pat ++ after.

(** ** Sample environments and worlds *)

Definition ok_response {Body} (body : Body) : Response Body :=
  {| ok := true; statusText := "OK"; json := inr body |}.

Definition translated (text : string) : TranslateBody :=
  {| errorMessage := inr None; translatedText := inr text |}.

(** All three services answer; every word is "apple". *)
Definition env_online : Env :=
  {| GOOGLE_TRANSLATE_API_KEY := Some "key";
     wordApi := fun _ => Resolved (ok_response "apple");
     dictionaryApi := fun _ _ => Resolved (ok_response tt);
     translationApi := fun _ _ _ => Resolved (ok_response (translated "사과")) |}.

(** As [env_online], without the credential. *)
Definition env_no_key : Env :=
  {| GOOGLE_TRANSLATE_API_KEY := None;
     wordApi := wordApi env_online;
     dictionaryApi := dictionaryApi env_online;
     translationApi := translationApi env_online |}.

(** No credential and no network: every [fetch] rejects. *)
Definition env_offline : Env :=
  {| GOOGLE_TRANSLATE_API_KEY := None;
     wordApi := fun _ => Rejected (Error "Failed to fetch");
     dictionaryApi := fun _ _ => Rejected (Error "Failed to fetch");
     translationApi := fun _ _ _ => Rejected (Error "Failed to fetch") |}.

(** The translation endpoint refuses the key. *)
Definition env_bad_key : Env :=
  {| GOOGLE_TRANSLATE_API_KEY := Some "key";
     wordApi := wordApi env_online;
     dictionaryApi := dictionaryApi env_online;
     translationApi := fun _ _ _ =>
       Resolved {| ok := false; statusText := "Bad Request";
                   json := inr {| errorMessage :=
                                    inr (Some "API key not valid. Please pass a valid API key.");
                                  translatedText := inl (Error "TypeError") |} |} |}.

(** The component as first rendered, before any effect. *)
Definition world0 : World := {| page := initialState; trace := [] |}.

(** The word endpoint fails on every other call and the dictionary rejects the
    words in between: both kinds of failure alternate. *)
Definition env_alternating : Env :=
  {| GOOGLE_TRANSLATE_API_KEY := Some "key";
     wordApi := fun history =>
       if Nat.even (count_events is_word_request history)
       then Resolved {| ok := false; statusText := "Service Unavailable";
                        json := inl (Error "Unexpected token") |}
       else Resolved (ok_response "qzx");
     dictionaryApi := fun _ _ =>
       Resolved {| ok := false; statusText := "Not Found"; json := inr tt |};
     translationApi := translationApi env_online |}.

(** The count field holds 3 and Start has been clicked, all services
    answering: screen 2, three words, cursor 0. *)
Definition world_browsing : World :=
  snd (handleStartClick env_online (snd (handleWordCountChange 3 world0))).

(** ** The cursor *)

(** The cursor is inside the session list and the displayed word is the one
    under the cursor. *)
Definition browsing_invariant (s : WordState) : Prop :=
  (0 <= currentWordIndex s < Z.of_nat (List.length (allWordsForSession s)))%Z
  /\ currentWordData s = array_get (allWordsForSession s) (currentWordIndex s).

(** The message the [catch] block returns for an error message [m]. *)
Definition classify (m : string) : string :=
  if includes m "API key not valid" then MSG_KEY_INVALID
  else if includes m "daily limit exceeded" then MSG_QUOTA
  else MSG_FAILED_PREFIX ++ m.

(** ** Notions for the further properties *)

(** The error with which a failed round of fetchWordFromAPI leaves its [try]
    block, read off the round's events (newest first): the rejection of a
    [fetch] or of [response.json()], or one of the two errors the code
    constructs for a response that is not [ok]. *)
Definition round_error (round : list Event) : option JsError :=
  match round with
  | [EvWordRequest (Rejected e)] => Some e
  | [EvWordRequest (Resolved response)] =>
      if ok response then
        match json response with
        | inl e => Some e
        | inr _ => None
        end
      else Some (Error "Could not fetch a random word.")
  | [EvDictRequest _ (Rejected e); EvWordRequest _] => Some e
  | [EvDictRequest _ (Resolved dictResponse); EvWordRequest _] =>
      if ok dictResponse then None
      else Some (Error "Could not find a valid word.")
  | _ => None
  end.

(** Every timer of the list is the one-second pause. *)
Definition pause_1000 (ev : Event) : Prop :=
  match ev with
  | EvDelay ms => ms = 1000%Z
  | _ => True
  end.

(** The traffic discipline of the loader: one pause per word round trip, all
    pauses of one second, and no more dictionary than word round trips. *)
Definition paced (evs : list Event) : Prop :=
  count_events is_delay evs = count_events is_word_request evs
  /\ count_events is_dict_request evs <= count_events is_word_request evs
  /\ Forall pause_1000 evs.


(** The word endpoint always answers [ok] with a readable body, and the
    dictionary accepts every word. *)
Definition always_accepting (env : Env) : Prop :=
  (forall history,
      exists response randomWord,
        wordApi env history = Resolved response
        /\ ok response = true
        /\ json response = inr randomWord)
  /\ (forall history randomWord,
        exists dictResponse,
          dictionaryApi env history randomWord = Resolved dictResponse
          /\ ok dictResponse = true).

(** ** The rendered screen and the user *)

(** What the component returns, by screen, with the parts that depend on the
    state: the texts shown and which controls are disabled. *)
Inductive View :=
| SetupView (defaultValue : Z) (disabled : bool) (buttonLabel : string)
    (errorText : option string)
| LoadingView (text : string)
| UnavailableView
| WordView (counter : string) (previousDisabled : bool)
    (englishText koreanText : string) (nextDisabled : bool)
    (errorText : option string)
| FinishedView
| UnknownView.

(** [{error && <p>{error}</p>}]: nothing for [null] and for the empty string. *)
Definition shown_error (error : option string) : option string :=
  match error with
  | Some text => if truthy text then Some text else None
  | None => None
  end.

(** The return value of the component function. *)
Definition render (s : WordState) : View :=
  if (currentScreen s =? 1)%Z then
    SetupView (wordCount s) (isLoading s)
      (if isLoading s then loadingMessage s else "Start")
      (shown_error (error s))
  else if (currentScreen s =? 2)%Z then
    match isLoading s, currentWordData s with
    | true, _ => LoadingView (loadingMessage s)
    | false, None => UnavailableView
    | false, Some data =>
        WordView (string_of_Z (currentWordIndex s + 1) ++ "/"
                  ++ string_of_nat (List.length (allWordsForSession s)))
                 (currentWordIndex s =? 0)%Z
                 (english data) (korean data) false
                 (shown_error (error s))
    end
  else if (currentScreen s =? 3)%Z then FinishedView
  else UnknownView.

(** What the user can do to the rendered controls. *)
Inductive Click :=
| ChangeCount (value : Z)
| ClickStart
| ClickPrevious
| ClickNext
| ClickTest
| ClickHome.

(** The control exists in the view and is not disabled. *)
Definition enabled (view : View) (click : Click) : bool :=
  match view, click with
  | SetupView _ disabled _ _, ChangeCount _ => negb disabled
  | SetupView _ disabled _ _, ClickStart => negb disabled
  | WordView _ previousDisabled _ _ _ _, ClickPrevious => negb previousDisabled
  | WordView _ _ _ _ nextDisabled _, ClickNext => negb nextDisabled
  | FinishedView, ClickTest => true
  | FinishedView, ClickHome => true
  | _, _ => false
  end.

(** The handler wired to the control ([onChange], [onClick]). *)
Definition dispatch (env : Env) (click : Click) : M unit :=
  match click with
  | ChangeCount value => handleWordCountChange value
  | ClickStart => handleStartClick env
  | ClickPrevious => handlePreviousWord
  | ClickNext => handleNextWord
  | ClickTest => handleTestClick
  | ClickHome => handleHomeClick
  end.

(** One user action: the handler runs to completion if its control is
    enabled in the current view.  While a load runs the only controls, those
    of the setup screen, are disabled, so no handler interleaves with it. *)
Definition user_step (env : Env) (w : World) (click : Click) : World :=
  if enabled (render (page w)) click then snd (dispatch env click w) else w.

Definition user_run (env : Env) (clicks : list Click) (w : World) : World :=
  fold_left (user_step env) clicks w.

Definition MSG_NO_PREVIOUS : string := "이전 단어가 없습니다.".

(** What holds of the component after any user actions: no load is running,
    the "no previous word" error is not raised, and either the setup screen
    is shown or the screen is 2 or 3 with the cursor on a word of the list. *)
Definition session_invariant (s : WordState) : Prop :=
  isLoading s = false
  /\ error s <> Some MSG_NO_PREVIOUS
  /\ (currentScreen s = 1%Z
      \/ ((currentScreen s = 2%Z \/ currentScreen s = 3%Z)
          /\ browsing_invariant s)).

(** ** Failing attempts of a slot *)


(** * Facts about traces *)

Lemma count_events_app f evs1 evs2 :
  count_events f (evs1 ++ evs2) = count_events f evs1 + count_events f evs2.
Proof.
  unfold count_events. rewrite filter_app, length_app. reflexivity.
Qed.

Lemma count_events_cons f ev evs :
  count_events f (ev :: evs) = (if f ev then 1 else 0) + count_events f evs.
Proof.
  unfold count_events. simpl. destruct (f ev); reflexivity.
Qed.

Lemma count_events_nil f : count_events f [] = 0.
Proof. reflexivity. Qed.

Lemma failed_round_counts round :
  failed_round round ->
  count_events is_word_request round = 1
  /\ count_events is_dict_request round <= 1
  /\ count_events is_delay round = 0
  /\ count_events is_translate_request round = 0
  /\ count_events is_acceptance round = 0
  /\ count_events is_attempt_failure round = 0.
Proof.
  intros [answer | randomWord answer dictAnswer Hno].
  - cbv. repeat split; lia.
  - rewrite !count_events_cons, Hno. cbn. repeat split; lia.
Qed.

Ltac count_step :=
  repeat (rewrite ?count_events_app, ?count_events_cons, ?count_events_nil);
  cbn [is_word_request is_dict_request is_delay is_translate_request
       is_acceptance is_attempt_failure].

(** The budget of one call: the word round trips, together with the retries
    already spent, never exceed 4; every retry is one delay; a dictionary
    round trip happens only after a word round trip. *)
Lemma fetch_events_counts retryCount result evs :
  fetch_events retryCount result evs ->
  1 <= count_events is_word_request evs
  /\ count_events is_word_request evs + Nat.min retryCount 3 <= 4
  /\ count_events is_dict_request evs <= count_events is_word_request evs
  /\ count_events is_delay evs + 1 = count_events is_word_request evs
  /\ count_events is_translate_request evs = 0
  /\ count_events is_attempt_failure evs = 0.
Proof.
  induction 1 as [retryCount randomWord response dictResponse Hok Hjson Hdok
                 | retryCount result round evs Hlt Hround Hrest IH
                 | retryCount e round Hge Hround].
  - cbv - [Nat.min]. repeat split; lia.
  - destruct (failed_round_counts Hround) as (Hw & Hd & Hdl & Ht & Ha & Hf).
    destruct IH as (IH1 & IH2 & IH3 & IH4 & IH5 & IH6).
    count_step. rewrite Hw, Hdl, Ht, Hf. repeat split; lia.
  - destruct (failed_round_counts Hround) as (Hw & Hd & Hdl & Ht & Ha & Hf).
    rewrite Hw, Hdl, Ht, Hf. repeat split; lia.
Qed.

(** A call that throws has used the whole budget and saw no acceptance. *)
Lemma fetch_events_throw retryCount e evs :
  fetch_events retryCount (Throw e) evs ->
  count_events is_acceptance evs = 0
  /\ (retryCount <= 3 -> count_events is_word_request evs = 4 - retryCount).
Proof.
  remember (Throw e) as result eqn:Hres.
  induction 1 as [retryCount randomWord response dictResponse Hok Hjson Hdok
                 | retryCount result round evs Hlt Hround Hrest IH
                 | retryCount e' round Hge Hround].
  - discriminate.
  - destruct (failed_round_counts Hround) as (Hw & Hd & Hdl & Ht & Ha & Hf).
    destruct (IH Hres) as (IH1 & IH2).
    count_step. rewrite Hw, Ha, IH1. split; lia.
  - destruct (failed_round_counts Hround) as (Hw & Hd & Hdl & Ht & Ha & Hf).
    rewrite Hw, Ha. split; lia.
Qed.

(** A call that returns a word ends with the acceptance of that word. *)
Lemma fetch_events_return retryCount randomWord evs :
  fetch_events retryCount (Return randomWord) evs ->
  exists dictResponse earlier,
    evs = EvDictRequest randomWord (Resolved dictResponse) :: earlier
    /\ ok dictResponse = true.
Proof.
  remember (Return randomWord) as result eqn:Hres.
  induction 1 as [retryCount randomWord' response dictResponse Hok Hjson Hdok
                 | retryCount result round evs Hlt Hround Hrest IH
                 | retryCount e' round Hge Hround].
  - injection Hres as ->. eauto.
  - destruct (IH Hres) as (dictResponse & earlier & -> & Hok).
    exists dictResponse, (earlier ++ EvDelay 1000 :: round)%list.
    split; [reflexivity | assumption].
  - discriminate.
Qed.

Lemma translate_events_counts key englishWord evs :
  translate_events key englishWord evs ->
  count_events is_word_request evs = 0
  /\ count_events is_dict_request evs = 0
  /\ count_events is_delay evs = 0
  /\ count_events is_translate_request evs <= 1
  /\ count_events is_acceptance evs = 0
  /\ count_events is_attempt_failure evs = 0.
Proof.
  intros [Hmissing | k answer Hkey Hk | k answer e Hkey Hk]; cbv; repeat split; lia.
Qed.

Lemma gate_respected_app evs later :
  gate_respected later -> gate_respected evs -> gate_respected (later ++ evs).
Proof.
  intros Hlater Hevs.
  induction later as [| ev later IH]; simpl; [assumption |].
  destruct ev; simpl in Hlater; auto.
  destruct Hlater as [Hacc Hrest]. split; [| auto].
  rewrite existsb_app, Hacc. reflexivity.
Qed.

Lemma gate_respected_no_translation evs :
  count_events is_translate_request evs = 0 -> gate_respected evs.
Proof.
  induction evs as [| ev evs IH]; simpl; [trivial |].
  rewrite count_events_cons.
  destruct ev; simpl; intros Hcount; try (apply IH; lia).
  discriminate.
Qed.

(** A translation of a word straight after its acceptance respects the gate. *)
Lemma gate_respected_translation key englishWord tevs dictResponse earlier :
  translate_events key englishWord tevs ->
  ok dictResponse = true ->
  gate_respected earlier ->
  gate_respected
    (tevs ++ EvDictRequest englishWord (Resolved dictResponse) :: earlier).
Proof.
  intros Htevs Hok Hearlier.
  assert (Haccepts : accepts englishWord
                       (EvDictRequest englishWord (Resolved dictResponse)) = true).
  { simpl. rewrite String.eqb_refl, Hok. reflexivity. }
  destruct Htevs as [Hmissing | k answer Hkey Hk | k answer e Hkey Hk]; simpl;
    rewrite ?String.eqb_refl, ?Hok; simpl; auto.
Qed.

Lemma prefix_append (p rest : string) : String.prefix p (p ++ rest) = true.
Proof.
  induction p as [| c p IH]; simpl.
  - destruct rest; reflexivity.
  - destruct (ascii_dec c c) as [_ | Hne]; [exact IH | now elim Hne].
Qed.

Lemma fetched_attempt_events key englishWord fevs tevs :
  fetch_events 0 (Return englishWord) fevs ->
  translate_events key englishWord tevs ->
  count_events is_word_request (EvDelay 1000 :: tevs ++ fevs) <= 4
  /\ gate_respected (EvDelay 1000 :: tevs ++ fevs)
  /\ existsb (accepts englishWord) (EvDelay 1000 :: tevs ++ fevs) = true
  /\ count_events is_attempt_failure (EvDelay 1000 :: tevs ++ fevs) = 0.
Proof.
  intros Hfevs Htevs.
  destruct (fetch_events_counts Hfevs) as (Hw1 & Hw4 & Hd & Hdl & Ht & Hf).
  destruct (translate_events_counts Htevs) as (Tw & Td & Tdl & Tt & Ta & Tf).
  split; [count_step; rewrite Tw; simpl in Hw4; lia |].
  assert (Hnone : count_events is_attempt_failure
                    (EvDelay 1000 :: tevs ++ fevs) = 0).
  { count_step. rewrite Tf, Hf. reflexivity. }
  destruct (fetch_events_return Hfevs) as (dictResponse & earlier & -> & Hok).
  repeat split.
  - simpl. eapply gate_respected_translation; [exact Htevs | exact Hok |].
    apply gate_respected_no_translation.
    rewrite count_events_cons in Ht. simpl in Ht. exact Ht.
  - simpl. rewrite existsb_app. simpl.
    rewrite String.eqb_refl, Hok. simpl. apply orb_true_r.
  - exact Hnone.
Qed.

Lemma failed_attempt_events e text fevs :
  fetch_events 0 (Throw e) fevs ->
  is_attempt_failure (EvConsoleError text (Some e)) = true ->
  count_events is_word_request
    (EvDelay 1000 :: EvConsoleError text (Some e) :: fevs) <= 4
  /\ gate_respected (EvDelay 1000 :: EvConsoleError text (Some e) :: fevs)
  /\ count_events is_attempt_failure
       (EvDelay 1000 :: EvConsoleError text (Some e) :: fevs) = 1
  /\ count_events is_acceptance
       (EvDelay 1000 :: EvConsoleError text (Some e) :: fevs) = 0
  /\ count_events is_translate_request
       (EvDelay 1000 :: EvConsoleError text (Some e) :: fevs) = 0.
Proof.
  intros Hfevs Hfailure.
  destruct (fetch_events_counts Hfevs) as (Hw1 & Hw4 & Hd & Hdl & Ht & Hf).
  destruct (fetch_events_throw Hfevs) as (Ha & _).
  repeat split.
  - count_step. simpl in Hw4. lia.
  - simpl. apply gate_respected_no_translation. exact Ht.
  - rewrite 2 count_events_cons, Hfailure, Hf. reflexivity.
  - count_step. rewrite Ha. reflexivity.
  - count_step. rewrite Ht. reflexivity.
Qed.


Lemma loading_frame_refl s : loading_frame s s.
Proof. repeat split. Qed.

Lemma loading_frame_trans s1 s2 s3 :
  loading_frame s1 s2 -> loading_frame s2 s3 -> loading_frame s1 s3.
Proof.
  unfold loading_frame. intros (A1 & A2 & A3 & A4 & A5 & A6) (B1 & B2 & B3 & B4 & B5 & B6).
  repeat split; congruence.
Qed.

Lemma slot_filled_later env later evs pair :
  slot_filled env evs pair -> slot_filled env (later ++ evs) pair.
Proof.
  intros [Hplaceholder | [Haccepted Htranslated]]; [left; assumption |].
  right. split; [| assumption].
  rewrite existsb_app, Haccepted. apply orb_true_r.
Qed.

Lemma slot_filled_earlier env evs earlier pair :
  slot_filled env evs pair -> slot_filled env (evs ++ earlier) pair.
Proof.
  intros [Hplaceholder | [Haccepted Htranslated]]; [left; assumption |].
  right. split; [| assumption].
  rewrite existsb_app, Haccepted. reflexivity.
Qed.

Lemma prefix_true_iff (p s : string) :
  String.prefix p s = true <-> exists after, s = p ++ after.
Proof.
  split.
  - revert s. induction p as [| c p IH]; intros s Hprefix.
    + exists s. reflexivity.
    + destruct s as [| d s]; simpl in Hprefix; [discriminate |].
      destruct (ascii_dec c d) as [-> | Hne]; [| discriminate].
      destruct (IH s Hprefix) as (after & ->).
      exists after. reflexivity.
  - intros (after & ->). apply prefix_append.
Qed.

Lemma includes_unfold (s pat : string) :
  includes s pat
  = if String.prefix pat s then true
    else match s with
         | EmptyString => false
         | String _ rest => includes rest pat
         end.
Proof. destruct s; reflexivity. Qed.

(** [includes] decides occurrence. *)
Lemma includes_spec (s pat : string) :
  includes s pat = true <-> contains s pat.
Proof.
  split.
  - induction s as [| c s IH]; rewrite includes_unfold;
      match goal with
      | |- context [String.prefix pat ?s0] =>
          destruct (String.prefix pat s0) eqn:Hprefix
      end.
    + intros _. apply prefix_true_iff in Hprefix.
      destruct Hprefix as (after & Hs).
      exists EmptyString, after. exact Hs.
    + discriminate.
    + intros _. apply prefix_true_iff in Hprefix.
      destruct Hprefix as (after & Hs).
      exists EmptyString, after. exact Hs.
    + intros Hrest. destruct (IH Hrest) as (before & after & ->).
      exists (String c before), after. reflexivity.
  - intros (before & after & ->).
    induction before as [| c before IH]; rewrite includes_unfold.
    + replace (String.prefix pat (EmptyString ++ pat ++ after)) with true;
        [reflexivity |].
      symmetry. apply prefix_true_iff. exists after. reflexivity.
    + destruct (String.prefix pat (String c before ++ pat ++ after));
        [reflexivity | exact IH].
Qed.

Lemma includes_false (s pat : string) :
  includes s pat = false <-> ~ contains s pat.
Proof.
  rewrite <- includes_spec. destruct (includes s pat); split; congruence.
Qed.

(** A call that returns a word saw exactly one acceptance, the last event. *)
Lemma fetch_events_return_shape retryCount randomWord evs :
  fetch_events retryCount (Return randomWord) evs ->
  exists response dictResponse earlier,
    evs = EvDictRequest randomWord (Resolved dictResponse)
          :: EvWordRequest (Resolved response) :: earlier
    /\ ok response = true
    /\ json response = inr randomWord
    /\ ok dictResponse = true
    /\ count_events is_acceptance evs = 1.
Proof.
  remember (Return randomWord) as result eqn:Hres.
  induction 1 as [retryCount randomWord' response dictResponse Hok Hjson Hdok
                 | retryCount result round evs Hlt Hround Hrest IH
                 | retryCount e' round Hge Hround].
  - injection Hres as ->.
    exists response, dictResponse, []. repeat split; try assumption.
    rewrite !count_events_cons. simpl. rewrite Hdok. reflexivity.
  - destruct (IH Hres)
      as (response & dictResponse & earlier & -> & Hok & Hjson & Hdok & Hone).
    destruct (failed_round_counts Hround) as (_ & _ & _ & _ & Hnone & _).
    exists response, dictResponse, (earlier ++ EvDelay 1000 :: round)%list.
    repeat split; try assumption.
    change (count_events is_acceptance
              ((EvDictRequest randomWord (Resolved dictResponse)
                :: EvWordRequest (Resolved response) :: earlier)
               ++ EvDelay 1000 :: round) = 1).
    rewrite count_events_app, Hone, count_events_cons, Hnone. reflexivity.
  - discriminate.
Qed.

Lemma paced_app later evs : paced later -> paced evs -> paced (later ++ evs).
Proof.
  intros (L1 & L2 & L3) (E1 & E2 & E3).
  repeat split; rewrite ?count_events_app; try lia.
  apply Forall_app. split; assumption.
Qed.

Lemma failed_round_pauses round : failed_round round -> Forall pause_1000 round.
Proof.
  intros [answer | randomWord answer dictAnswer Hno]; repeat constructor.
Qed.

Lemma fetch_events_pauses retryCount result evs :
  fetch_events retryCount result evs -> Forall pause_1000 evs.
Proof.
  induction 1 as [retryCount randomWord response dictResponse Hok Hjson Hdok
                 | retryCount result round evs Hlt Hround Hrest IH
                 | retryCount e round Hge Hround].
  - repeat constructor.
  - apply Forall_app. split; [exact IH |].
    constructor; [reflexivity | apply failed_round_pauses; exact Hround].
  - apply failed_round_pauses; exact Hround.
Qed.

Lemma translate_events_pauses key englishWord evs :
  translate_events key englishWord evs -> Forall pause_1000 evs.
Proof.
  intros [Hmissing | k answer Hkey Hk | k answer e Hkey Hk]; repeat constructor.
Qed.

(** A successful attempt: the fetch, the translation, the closing pause. *)
Lemma fetched_attempt_paced key englishWord fevs tevs :
  fetch_events 0 (Return englishWord) fevs ->
  translate_events key englishWord tevs ->
  paced (EvDelay 1000 :: tevs ++ fevs)
  /\ 1 <= count_events is_word_request (EvDelay 1000 :: tevs ++ fevs) <= 4
  /\ count_events is_translate_request (EvDelay 1000 :: tevs ++ fevs) <= 1.
Proof.
  intros Hfevs Htevs.
  destruct (fetch_events_counts Hfevs) as (Hw1 & Hw4 & Hd & Hdl & Ht & Hf).
  destruct (translate_events_counts Htevs) as (Tw & Td & Tdl & Tt & Ta & Tf).
  simpl in Hw4.
  repeat split; count_step; try lia.
  constructor; [reflexivity |].
  apply Forall_app. split;
    [exact (translate_events_pauses Htevs) | exact (fetch_events_pauses Hfevs)].
Qed.

(** A failed attempt: the fetch, the [console.error], the closing pause. *)
Lemma failed_attempt_paced e text fevs :
  fetch_events 0 (Throw e) fevs ->
  paced (EvDelay 1000 :: EvConsoleError text (Some e) :: fevs)
  /\ 1 <= count_events is_word_request
            (EvDelay 1000 :: EvConsoleError text (Some e) :: fevs) <= 4
  /\ count_events is_translate_request
       (EvDelay 1000 :: EvConsoleError text (Some e) :: fevs) = 0.
Proof.
  intros Hfevs.
  destruct (fetch_events_counts Hfevs) as (Hw1 & Hw4 & Hd & Hdl & Ht & Hf).
  simpl in Hw4.
  repeat split; count_step; try lia.
  constructor; [reflexivity |].
  constructor; [exact I | exact (fetch_events_pauses Hfevs)].
Qed.

Lemma array_get_in_range {A} (xs : list A) (i : Z) :
  (0 <= i < Z.of_nat (List.length xs))%Z ->
  exists x, array_get xs i = Some x /\ nth_error xs (Z.to_nat i) = Some x.
Proof.
  intros Hrange. unfold array_get.
  destruct (i <? 0)%Z eqn:Hneg; [apply Z.ltb_lt in Hneg; lia |].
  destruct (nth_error xs (Z.to_nat i)) as [x |] eqn:Hnth; [eauto |].
  apply nth_error_None in Hnth. lia.
Qed.

(** Under the browsing invariant screen 2 shows the word under the cursor. *)
Lemma render_browsing s :
  currentScreen s = 2%Z ->
  isLoading s = false ->
  browsing_invariant s ->
  exists data,
    nth_error (allWordsForSession s) (Z.to_nat (currentWordIndex s)) = Some data
    /\ render s
       = WordView (string_of_Z (currentWordIndex s + 1) ++ "/"
                   ++ string_of_nat (List.length (allWordsForSession s)))
                  (currentWordIndex s =? 0)%Z
                  (english data) (korean data) false
                  (shown_error (error s)).
Proof.
  intros Hscreen Hloading [Hrange Hdata].
  destruct (array_get_in_range _ Hrange) as (data & Hget & Hnth).
  exists data. split; [exact Hnth |].
  unfold render. rewrite Hscreen, Hloading, Hdata, Hget. reflexivity.
Qed.

Lemma handleNextWord_invariant w :
  browsing_invariant (page w) ->
  browsing_invariant (page (snd (handleNextWord w)))
  /\ error (page (snd (handleNextWord w))) = error (page w)
  /\ isLoading (page (snd (handleNextWord w))) = isLoading (page w)
  /\ (currentScreen (page (snd (handleNextWord w))) = currentScreen (page w)
      \/ currentScreen (page (snd (handleNextWord w))) = 3%Z).
Proof.
  intros [Hrange Hdata].
  unfold handleNextWord, bind, gets.
  destruct (currentWordIndex (page w) + 1
            <? Z.of_nat (List.length (allWordsForSession (page w))))%Z eqn:Hnext;
    simpl.
  - apply Z.ltb_lt in Hnext.
    split; [split; simpl; [lia | reflexivity] | auto].
  - split; [split; simpl; assumption | auto].
Qed.

Lemma handlePreviousWord_moves w :
  browsing_invariant (page w) ->
  currentWordIndex (page w) <> 0%Z ->
  browsing_invariant (page (snd (handlePreviousWord w)))
  /\ error (page (snd (handlePreviousWord w))) = None
  /\ isLoading (page (snd (handlePreviousWord w))) = isLoading (page w)
  /\ currentScreen (page (snd (handlePreviousWord w))) = currentScreen (page w).
Proof.
  intros [Hrange Hdata] Hnonzero.
  unfold handlePreviousWord, bind, gets.
  destruct (currentWordIndex (page w) >? 0)%Z eqn:Hpos; simpl.
  - split; [split; simpl; [lia | reflexivity] | auto].
  - rewrite Z.gtb_ltb in Hpos. apply Z.ltb_ge in Hpos. lia.
Qed.

Lemma navigation_keeps_list w :
  allWordsForSession (page (snd (handleNextWord w))) = allWordsForSession (page w)
  /\ allWordsForSession (page (snd (handlePreviousWord w)))
     = allWordsForSession (page w)
  /\ trace (snd (handleNextWord w)) = trace w
  /\ trace (snd (handlePreviousWord w)) = trace w.
Proof.
  unfold handleNextWord, handlePreviousWord, bind, gets.
  destruct (currentWordIndex (page w) + 1
            <? Z.of_nat (List.length (allWordsForSession (page w))))%Z;
    destruct (currentWordIndex (page w) >? 0)%Z; repeat split.
Qed.

Lemma utf16_units_pos c : 1 <= utf16_units c.
Proof. unfold utf16_units. destruct (Nat.eqb (utf8_width c) 4); lia. Qed.

Lemma utf16_count_lone c rest : utf16_count 0 (lone_high_surrogate c rest) = 1.
Proof. reflexivity. Qed.

Lemma utf16_prefix_whole s : forall n p,
  utf16_count p s <= n -> utf16_prefix n p s = s.
Proof.
  induction s as [| c s IH]; intros n p Hcount; [reflexivity |].
  destruct p as [| more]; simpl in *.
  - unfold utf16_units in Hcount.
    destruct n as [| n']; [destruct (Nat.eqb (utf8_width c) 4); lia |].
    destruct (Nat.eqb (utf8_width c) 4) eqn:Hwide.
    + destruct n' as [| n'']; [lia |].
      apply Nat.eqb_eq in Hwide. rewrite Hwide in Hcount. simpl in Hcount.
      rewrite IH by lia. reflexivity.
    + rewrite IH by lia. reflexivity.
  - rewrite IH by exact Hcount. reflexivity.
Qed.

Lemma utf16_prefix_count s : forall n p,
  n <= utf16_count p s -> utf16_count p (utf16_prefix n p s) = n.
Proof.
  induction s as [| c s IH]; intros n p Hcount; [simpl in *; lia |].
  destruct p as [| more]; simpl in *.
  - destruct n as [| n']; [reflexivity |].
    unfold utf16_units in *.
    destruct (Nat.eqb (utf8_width c) 4) eqn:Hwide.
    + destruct n' as [| n'']; [apply utf16_count_lone |].
      apply Nat.eqb_eq in Hwide. simpl. unfold utf16_units.
      rewrite Hwide in *. simpl in *. rewrite IH by lia. reflexivity.
    + simpl. unfold utf16_units. rewrite Hwide. rewrite IH by lia. reflexivity.
  - apply IH. exact Hcount.
Qed.

(** The prefix is a prefix of the bytes, unless it ends inside a surrogate
    pair: then it ends with the high surrogate of that pair. *)
Lemma utf16_prefix_shape s : forall n p,
  (exists rest, s = utf16_prefix n p s ++ rest)
  \/ (exists before c rest,
        s = before ++ String c rest
        /\ utf8_width c = 4
        /\ utf16_prefix n p s = before ++ lone_high_surrogate c rest).
Proof.
  induction s as [| c s IH]; intros n p.
  - left. exists EmptyString. reflexivity.
  - destruct p as [| more]; simpl.
    + destruct n as [| n']; [left; eexists; reflexivity |].
      destruct (Nat.eqb (utf8_width c) 4) eqn:Hwide.
      * destruct n' as [| n''].
        -- right. exists EmptyString, c, s. apply Nat.eqb_eq in Hwide. auto.
        -- destruct (IH n'' 3) as [(rest & Hrest) | (before & d & rest & Hs & Hd & Hcut)].
           ++ left. exists rest. simpl. rewrite <- Hrest. reflexivity.
           ++ right. exists (String c before), d, rest.
              simpl. rewrite <- Hs, Hcut. auto.
      * destruct (IH n' (utf8_width c - 1))
          as [(rest & Hrest) | (before & d & rest & Hs & Hd & Hcut)].
        -- left. exists rest. simpl. rewrite <- Hrest. reflexivity.
        -- right. exists (String c before), d, rest.
           simpl. rewrite <- Hs, Hcut. auto.
    + destruct (IH n more)
        as [(rest & Hrest) | (before & d & rest & Hs & Hd & Hcut)].
      * left. exists rest. simpl. rewrite <- Hrest. reflexivity.
      * right. exists (String c before), d, rest.
        simpl. rewrite <- Hs, Hcut. auto.
Qed.

Section ComponentFacts.

Variable env : Env.

(** One pass through the [try]/[catch] of fetchWordFromAPI. *)
Lemma fetchWord_round retryCount w :
  match try_catch (fetchWord_try env retryCount) (fetchWord_catch retryCount) w with
  | (Return (inleft randomWord), w') =>
      exists response dictResponse,
        ok response = true /\ json response = inr randomWord /\
        ok dictResponse = true /\
        w' = {| page := page w;
                trace := [EvDictRequest randomWord (Resolved dictResponse);
                          EvWordRequest (Resolved response)] ++ trace w |}
  | (Return (inright _), w') =>
      exists round,
        failed_round round /\
        w' = {| page := page w; trace := (EvDelay 1000 :: round) ++ trace w |}
  | (Throw e, w') =>
      ~ retryCount < 3 /\
      exists round,
        failed_round round /\
        w' = {| page := page w; trace := round ++ trace w |}
  end.
Proof.
  unfold try_catch, fetchWord_try, fetchWord_catch, bind, fetch_word.
  destruct (wordApi env (trace w)) as [e | response] eqn:Hword; simpl.
  - unfold retry_or_throw, bind, delay, emit, ret, throw.
    destruct (lt_dec retryCount 3); simpl.
    + exists [EvWordRequest (Rejected e)]. split; [constructor | reflexivity].
    + split; [assumption |].
      exists [EvWordRequest (Rejected e)]. split; [constructor | reflexivity].
  - destruct (ok response) eqn:Hok; simpl.
    + unfold response_json.
      destruct (json response) as [e | randomWord] eqn:Hjson; simpl.
      * unfold throw, retry_or_throw, bind, delay, emit, ret, throw.
        destruct (lt_dec retryCount 3); simpl.
        -- exists [EvWordRequest (Resolved response)].
           split; [constructor | reflexivity].
        -- split; [assumption |].
           exists [EvWordRequest (Resolved response)].
           split; [constructor | reflexivity].
      * unfold ret, fetch_dictionary; simpl.
        destruct (dictionaryApi env _ randomWord) as [e | dictResponse] eqn:Hdict;
          simpl.
        -- unfold retry_or_throw, bind, delay, emit, ret, throw.
           destruct (lt_dec retryCount 3); simpl.
           ++ exists [EvDictRequest randomWord (Rejected e);
                      EvWordRequest (Resolved response)].
              split; [| reflexivity]. constructor. reflexivity.
           ++ split; [assumption |].
              exists [EvDictRequest randomWord (Rejected e);
                      EvWordRequest (Resolved response)].
              split; [| reflexivity]. constructor. reflexivity.
        -- destruct (ok dictResponse) eqn:Hdok; simpl.
           ++ exists response, dictResponse. auto.
           ++ unfold retry_or_throw, bind, delay, emit, ret, throw.
              destruct (lt_dec retryCount 3); simpl.
              ** exists [EvDictRequest randomWord (Resolved dictResponse);
                         EvWordRequest (Resolved response)].
                 split; [| reflexivity]. constructor. exact Hdok.
              ** destruct (lt_dec retryCount 3); [contradiction |]. simpl.
                 split; [assumption |].
                 exists [EvDictRequest randomWord (Resolved dictResponse);
                         EvWordRequest (Resolved response)].
                 split; [| reflexivity]. constructor. exact Hdok.
    + unfold retry_or_throw, bind, delay, emit, ret, throw.
      destruct (lt_dec retryCount 3); simpl.
      * exists [EvWordRequest (Resolved response)].
        split; [constructor | reflexivity].
      * destruct (lt_dec retryCount 3); [contradiction |]. simpl.
        split; [assumption |].
        exists [EvWordRequest (Resolved response)].
        split; [constructor | reflexivity].
Qed.

Lemma fetchWordFromAPI_events retryCount w :
  exists result evs,
    fetchWordFromAPI env retryCount w
      = (result, {| page := page w; trace := evs ++ trace w |})
    /\ fetch_events retryCount result evs.
Proof.
  funelim (fetchWordFromAPI env retryCount w).
  - pose proof (fetchWord_round retryCount w) as Hround.
    rewrite Heq in Hround.
    destruct Hround as (response & dictResponse & Hok & Hjson & Hdok & ->).
    do 2 eexists. split; [reflexivity |].
    now constructor.
  - pose proof (fetchWord_round retryCount w) as Hround.
    rewrite Heq in Hround.
    destruct Hround as (round & Hfailed & ->).
    destruct H as (result & evs & Hcall & Hevs).
    exists result, (evs ++ EvDelay 1000 :: round)%list.
    split.
    + rewrite Hcall. simpl. rewrite <- app_assoc. reflexivity.
    + now constructor.
  - pose proof (fetchWord_round retryCount w) as Hround.
    rewrite Heq in Hround.
    destruct Hround as (Hge & round & Hfailed & ->).
    do 2 eexists. split; [reflexivity |].
    now constructor.
Qed.

(** ** translateEnglishToKorean *)

Lemma translate_catch_eq e w :
  translate_catch e w
  = (Return (classify (message e)),
     {| page := page w;
        trace := EvConsoleError "Error during translation:" (Some e) :: trace w |}).
Proof.
  unfold translate_catch, classify, bind, console_error, emit, ret. simpl.
  destruct (includes (message e) "API key not valid"); [reflexivity |].
  destruct (includes (message e) "daily limit exceeded"); reflexivity.
Qed.

(** The [try] block performs exactly one round trip, whatever its outcome. *)
Lemma translate_try_trace key englishWord w :
  exists answer,
    snd (translate_try env key englishWord w)
    = {| page := page w;
         trace := EvTranslateRequest key englishWord answer :: trace w |}.
Proof.
  exists (translationApi env (trace w) key englishWord).
  unfold translate_try, bind, fetch_translation, response_json, throw, ret.
  destruct (translationApi env (trace w) key englishWord) as [e | response];
    simpl; [reflexivity |].
  destruct (ok response); simpl;
    destruct (json response) as [e | body]; simpl; try reflexivity.
  - destruct (translatedText body); reflexivity.
  - destruct (errorMessage body) as [e | [m |]]; reflexivity.
Qed.

Lemma translate_with_key key englishWord w :
  GOOGLE_TRANSLATE_API_KEY env = Some key ->
  truthy key = true ->
  translateEnglishToKorean env englishWord w
  = try_catch (translate_try env key englishWord) translate_catch w.
Proof.
  intros Hkey Htruthy. unfold translateEnglishToKorean.
  rewrite Hkey, Htruthy. reflexivity.
Qed.

Lemma translate_without_key englishWord w :
  key_missing (GOOGLE_TRANSLATE_API_KEY env) = true ->
  translateEnglishToKorean env englishWord w
  = (Return MSG_KEY_MISSING,
     {| page := page w;
        trace := EvConsoleError "Google Translate API Key is not set." None
                 :: trace w |}).
Proof.
  unfold translateEnglishToKorean, key_missing.
  destruct (GOOGLE_TRANSLATE_API_KEY env) as [key |]; [| reflexivity].
  destruct (truthy key); [discriminate | reflexivity].
Qed.

Lemma translateEnglishToKorean_events englishWord w :
  exists koreanTranslation evs,
    translateEnglishToKorean env englishWord w
      = (Return koreanTranslation,
         {| page := page w; trace := evs ++ trace w |})
    /\ translate_events (GOOGLE_TRANSLATE_API_KEY env) englishWord evs.
Proof.
  destruct (key_missing (GOOGLE_TRANSLATE_API_KEY env)) eqn:Hmissing.
  - rewrite (translate_without_key _ _ Hmissing).
    exists MSG_KEY_MISSING,
           [EvConsoleError "Google Translate API Key is not set." None].
    split; [reflexivity | now constructor].
  - unfold key_missing in Hmissing.
    destruct (GOOGLE_TRANSLATE_API_KEY env) as [key |] eqn:Hkey; [| discriminate].
    apply negb_false_iff in Hmissing.
    rewrite (translate_with_key _ _ Hkey Hmissing).
    unfold try_catch.
    destruct (translate_try_trace key englishWord w) as (answer & Htrace).
    destruct (translate_try env key englishWord w) as [[text | e] w'] eqn:Htry;
      simpl in Htrace; subst w'.
    + exists text, [EvTranslateRequest key englishWord answer].
      split; [reflexivity | now constructor].
    + rewrite translate_catch_eq. simpl.
      exists (classify (message e)),
             [EvConsoleError "Error during translation:" (Some e);
              EvTranslateRequest key englishWord answer].
      split; [reflexivity | now constructor].
Qed.

(** ** One attempt of a slot *)

(** The [while] body never throws.  Either the word fetch returned a word,
    which is translated and pushed on this attempt, or the word fetch threw
    and the [catch] block ran. *)
Lemma while_body_spec i count attempts fetchedWords w :
  exists locals evs w',
    while_body env i count attempts fetchedWords false w = (Return locals, w')
    /\ trace w' = (evs ++ trace w)%list
    /\ loading_frame (page w) (page w')
    /\ ((exists englishWord koreanTranslation fevs tevs w2 w3,
           locals = (push fetchedWords {| english := englishWord;
                                          korean := koreanTranslation |}, true)
           /\ evs = (EvDelay 1000 :: tevs ++ fevs)%list
           /\ fetch_events 0 (Return englishWord) fevs
           /\ translate_events (GOOGLE_TRANSLATE_API_KEY env) englishWord tevs
           /\ translateEnglishToKorean env englishWord w2
                = (Return koreanTranslation, w3)
           /\ error (page w') = error (page w))
        \/ (exists e text fevs,
             evs = (EvDelay 1000 :: EvConsoleError text (Some e) :: fevs)%list
             /\ is_attempt_failure (EvConsoleError text (Some e)) = true
             /\ fetch_events 0 (Throw e) fevs
             /\ ((MAX_ATTEMPTS_PER_WORD <= attempts
                  /\ locals = (push fetchedWords (placeholder e), true)
                  /\ error (page w') = Some MSG_PARTIAL_FAILURE)
                 \/ (attempts < MAX_ATTEMPTS_PER_WORD
                     /\ locals = (fetchedWords, false)
                     /\ error (page w') = error (page w))))).
Proof.
  unfold while_body, try_catch, attempt_try.
  unfold bind at 1. unfold setLoadingMessage at 1. unfold modify at 1.
  unfold bind at 1.
  match goal with
  | |- context [fetchWordFromAPI env 0 ?w1] =>
      destruct (fetchWordFromAPI_events 0 w1) as (result & fevs & Hfetch & Hfevs);
      rewrite Hfetch
  end.
  destruct result as [englishWord | e]; simpl.
  - unfold bind at 1. unfold setLoadingMessage at 1. unfold modify at 1.
    simpl. unfold bind at 1.
    match goal with
    | |- context [translateEnglishToKorean env englishWord ?w2] =>
        destruct (translateEnglishToKorean_events englishWord w2)
          as (koreanTranslation & tevs & Htranslate & Htevs);
        rewrite Htranslate
    end.
    simpl.
    do 3 eexists. split; [reflexivity |]. split; [| split].
    + simpl. rewrite app_comm_cons, app_assoc. reflexivity.
    + repeat split.
    + left. do 6 eexists.
      split; [reflexivity |]. split; [reflexivity |].
      split; [exact Hfevs |]. split; [exact Htevs |].
      split; [exact Htranslate | reflexivity].
  - unfold attempt_catch, bind, console_error, emit, delay, emit.
    destruct (Nat.leb MAX_ATTEMPTS_PER_WORD attempts) eqn:Hlast; simpl.
    + do 3 eexists. split; [reflexivity |]. split; [| split].
      * simpl. rewrite 2 app_comm_cons. reflexivity.
      * repeat split.
      * right. do 3 eexists. split; [reflexivity |].
        split; [exact (prefix_append "Error fetching and translating word " _) |].
        split; [exact Hfevs |].
        left. apply Nat.leb_le in Hlast. auto.
    + do 3 eexists. split; [reflexivity |]. split; [| split].
      * simpl. rewrite 2 app_comm_cons. reflexivity.
      * repeat split.
      * right. do 3 eexists. split; [reflexivity |].
        split; [exact (prefix_append "Error fetching and translating word " _) |].
        split; [exact Hfevs |].
        right. apply Nat.leb_gt in Hlast. auto.
Qed.

(** ** The [while] loop of a slot *)

Lemma while_loop_exit i count foundValidWord attempts fetchedWords w :
  foundValidWord = true \/ ~ attempts < MAX_ATTEMPTS_PER_WORD ->
  while_loop env i count foundValidWord attempts fetchedWords w
  = (Return (fetchedWords, foundValidWord, attempts), w).
Proof.
  intros Hexit.
  funelim (while_loop env i count foundValidWord attempts fetchedWords w);
    try reflexivity.
  all: destruct Hexit as [-> | Hge]; [discriminate | contradiction].
Qed.

Lemma while_loop_step i count attempts fetchedWords w :
  attempts < MAX_ATTEMPTS_PER_WORD ->
  while_loop env i count false attempts fetchedWords w
  = match while_body env i count (attempts + 1) fetchedWords false w with
    | (Return (fetchedWords', foundValidWord'), w') =>
        while_loop env i count foundValidWord' (attempts + 1) fetchedWords' w'
    | (Throw e, w') => (Throw e, w')
    end.
Proof.
  intros Hlt.
  remember false as foundValidWord eqn:Hfound.
  funelim (while_loop env i count foundValidWord attempts fetchedWords w).
  - contradiction.
  - discriminate.
  - rewrite Heq. reflexivity.
  - rewrite Heq. reflexivity.
Qed.

Lemma while_loop_spec n : forall i count attempts fetchedWords w,
  attempts + S n = MAX_ATTEMPTS_PER_WORD ->
  exists pair attempts' evs w',
    while_loop env i count false attempts fetchedWords w
      = (Return (push fetchedWords pair, true, attempts'), w')
    /\ trace w' = (evs ++ trace w)%list
    /\ loading_frame (page w) (page w')
    /\ attempts < attempts' <= MAX_ATTEMPTS_PER_WORD
    /\ count_events is_word_request evs <= 4 * (attempts' - attempts)
    /\ gate_respected evs
    /\ ((filled_by_fetch env (attempts' - attempts) pair evs
         /\ error (page w') = error (page w))
        \/ (filled_by_placeholder (attempts' - attempts) pair evs
            /\ attempts' = MAX_ATTEMPTS_PER_WORD
            /\ error (page w') = Some MSG_PARTIAL_FAILURE)).
Proof.
  induction n as [| n IH]; intros i count attempts fetchedWords w Hleft.
  all: rewrite while_loop_step by (unfold MAX_ATTEMPTS_PER_WORD in *; lia).
  all: destruct (while_body_spec i count (attempts + 1) fetchedWords w)
         as (locals & evs & w' & Hbody & Htrace & Hframe & Hcases).
  all: rewrite Hbody.
  all: destruct Hcases as
         [(englishWord & koreanTranslation & fevs & tevs & w2 & w3
           & -> & -> & Hfevs & Htevs & Htranslate & Herror)
         | (e & text & fevs & -> & Hfailure & Hfevs
            & [(Hlast & -> & Herror) | (Hmore & -> & Herror)])].
  1, 4:
    destruct (fetched_attempt_events Hfevs Htevs) as (Hw & Hgate & Hacc & Hfail);
    exists {| english := englishWord; korean := koreanTranslation |},
           (attempts + 1), (EvDelay 1000 :: tevs ++ fevs)%list, w';
    rewrite while_loop_exit by (left; reflexivity);
    replace (attempts + 1 - attempts) with 1 by lia;
    (split; [reflexivity |]); (split; [exact Htrace |]);
    (split; [exact Hframe |]); (split; [lia |]); (split; [lia |]);
    (split; [exact Hgate |]);
    left; repeat split; try assumption; eauto.
  - destruct (@failed_attempt_events e text fevs Hfevs Hfailure)
      as (Hw & Hgate & Hfail & Hacc & Htr).
    exists (placeholder e), (attempts + 1),
           (EvDelay 1000 :: EvConsoleError text (Some e) :: fevs)%list, w'.
    rewrite while_loop_exit by (left; reflexivity).
    replace (attempts + 1 - attempts) with 1 by lia.
    split; [reflexivity |]. split; [exact Htrace |].
    split; [exact Hframe |]. split; [lia |]. split; [lia |].
    split; [exact Hgate |].
    right. split; [| split; [lia | exact Herror]].
    exists e, text, fevs. repeat split; assumption.
  - unfold MAX_ATTEMPTS_PER_WORD in *. lia.
  - unfold MAX_ATTEMPTS_PER_WORD in *. lia.
  - destruct (@failed_attempt_events e text fevs Hfevs Hfailure)
      as (Hw & Hgate & Hfail & Hacc & Htr).
    destruct (IH i count (attempts + 1) fetchedWords w' ltac:(lia))
      as (pair & attempts' & evs & w'' & Hloop & Htrace' & Hframe' & Hbound & Hwords
          & Hgate' & Houtcome).
    exists pair, attempts',
           (evs ++ EvDelay 1000 :: EvConsoleError text (Some e) :: fevs)%list, w''.
    split; [exact Hloop |].
    split; [rewrite Htrace', Htrace, app_assoc; reflexivity |].
    split; [exact (loading_frame_trans Hframe Hframe') |].
    split; [lia |].
    split; [rewrite count_events_app; lia |].
    split; [apply gate_respected_app; assumption |].
    destruct Houtcome as [((Htranslated & Haccepted & Hcount) & Herror')
                         | ((e' & text' & earlier & -> & -> & Hcount & Hnone & Hnotr)
                            & -> & Herror')].
    + left. split; [| congruence].
      repeat split; [exact Htranslated | |].
      * rewrite existsb_app, Haccepted. reflexivity.
      * rewrite count_events_app, Hcount, Hfail. lia.
    + right. split; [| split; [reflexivity | exact Herror']].
      exists e', text',
             (earlier ++ EvDelay 1000 :: EvConsoleError text (Some e) :: fevs)%list.
      repeat split.
      * rewrite count_events_app, Hcount, Hfail. lia.
      * rewrite count_events_app, Hnone, Hacc. reflexivity.
      * rewrite count_events_app, Hnotr, Htr. reflexivity.
Qed.

Lemma for_body_spec i count fetchedWords w :
  exists pair attempts evs w',
    while_loop env i count false 0 fetchedWords w
      = (Return (push fetchedWords pair, true, attempts), w')
    /\ for_body env i count fetchedWords w = (Return (push fetchedWords pair), w')
    /\ trace w' = (evs ++ trace w)%list
    /\ loading_frame (page w) (page w')
    /\ 1 <= attempts <= MAX_ATTEMPTS_PER_WORD
    /\ count_events is_word_request evs <= 4 * attempts
    /\ gate_respected evs
    /\ ((filled_by_fetch env attempts pair evs
         /\ error (page w') = error (page w))
        \/ (filled_by_placeholder attempts pair evs
            /\ attempts = MAX_ATTEMPTS_PER_WORD
            /\ error (page w') = Some MSG_PARTIAL_FAILURE)).
Proof.
  destruct (@while_loop_spec 4 i count 0 fetchedWords w eq_refl)
    as (pair & attempts & evs & w' & Hloop & Htrace & Hframe & Hbound & Hwords
        & Hgate & Houtcome).
  rewrite Nat.sub_0_r in *.
  exists pair, attempts, evs, w'.
  split; [exact Hloop |].
  split; [unfold for_body, bind; rewrite Hloop; reflexivity |].
  repeat (split; [assumption || lia |]). exact Houtcome.
Qed.

Lemma for_loop_spec indices : forall count fetchedWords w,
  exists added evs w',
    for_loop env indices count fetchedWords w
      = (Return (fetchedWords ++ added)%list, w')
    /\ trace w' = (evs ++ trace w)%list
    /\ loading_frame (page w) (page w')
    /\ List.length added = List.length indices
    /\ count_events is_word_request evs <= 20 * List.length indices
    /\ gate_respected evs
    /\ Forall (slot_filled env evs) added.
Proof.
  induction indices as [| i rest IH]; intros count fetchedWords w.
  - exists [], [], w. simpl. rewrite app_nil_r.
    split; [reflexivity |]. split; [reflexivity |].
    split; [apply loading_frame_refl |]. split; [reflexivity |].
    split; [cbv; lia |]. split; [exact I | constructor].
  - destruct (for_body_spec i count fetchedWords w)
      as (pair & attempts & evs & w' & _ & Hbody & Htrace & Hframe & Hbound
          & Hwords & Hgate & Houtcome).
    destruct (IH count (push fetchedWords pair) w')
      as (added & evs' & w'' & Hrest & Htrace' & Hframe' & Hlen & Hwords'
          & Hgate' & Hfilled).
    exists (pair :: added), (evs' ++ evs)%list, w''.
    split.
    { simpl. unfold bind at 1. rewrite Hbody, Hrest.
      unfold push. rewrite <- app_assoc. reflexivity. }
    split; [rewrite Htrace', Htrace, app_assoc; reflexivity |].
    split; [exact (loading_frame_trans Hframe Hframe') |].
    split; [simpl; lia |].
    split.
    { rewrite count_events_app. simpl List.length.
      unfold MAX_ATTEMPTS_PER_WORD in Hbound. lia. }
    split; [apply gate_respected_app; assumption |].
    constructor.
    + apply slot_filled_later.
      destruct Houtcome as [((Htranslated & Haccepted & _) & _)
                           | ((e & text & earlier & -> & _) & _)].
      * right. split; assumption.
      * left. exists e. reflexivity.
    + apply Forall_impl with (P := slot_filled env evs'); [| exact Hfilled].
      intros pair' Hpair'.
      apply slot_filled_earlier. exact Hpair'.
Qed.

(** ** The session load *)

Lemma fetchAndTranslateWords_spec count w :
  exists fetchedWords evs w',
    fetchAndTranslateWords env count w = (Return tt, w')
    /\ trace w' = (evs ++ trace w)%list
    /\ List.length fetchedWords = Z.to_nat count
    /\ allWordsForSession (page w') = fetchedWords
    /\ currentWordData (page w') = nth_error fetchedWords 0
    /\ isLoading (page w') = false
    /\ currentScreen (page w') = currentScreen (page w)
    /\ wordCount (page w') = wordCount (page w)
    /\ currentWordIndex (page w') = currentWordIndex (page w)
    /\ count_events is_word_request evs <= 20 * Z.to_nat count
    /\ gate_respected evs
    /\ Forall (slot_filled env evs) fetchedWords.
Proof.
  unfold fetchAndTranslateWords.
  unfold bind at 1. unfold setIsLoading at 1. unfold modify at 1.
  unfold bind at 1. unfold setLoadingMessage at 1. unfold modify at 1.
  unfold bind at 1. unfold setError at 1. unfold modify at 1.
  unfold bind at 1.
  match goal with
  | |- context [for_loop env ?indices count [] ?w1] =>
      destruct (for_loop_spec indices count [] w1)
        as (fetchedWords & evs & w' & Hloop & Htrace & Hframe & Hlen & Hwords
            & Hgate & Hfilled);
      rewrite Hloop
  end.
  rewrite length_seq in Hlen, Hwords.
  destruct Hframe as (Hscreen & Hcount & Hindex & Hdata & Hloading & Hall).
  simpl in Htrace, Hscreen, Hcount, Hindex |- *.
  exists fetchedWords, evs.
  unfold bind, setAllWordsForSession, setCurrentWordData, setIsLoading,
    setLoadingMessage, setError, modify.
  simpl.
  destruct fetchedWords as [| first others]; simpl;
    (eexists; split; [reflexivity |]); simpl;
    repeat (split; [assumption || reflexivity |]); assumption.
Qed.

(** The [while] body, by the outcome of its word fetch and of its translation. *)
Lemma while_body_unfold i count attempts fetchedWords foundValidWord w :
  while_body env i count attempts fetchedWords foundValidWord w
  = match fetchWordFromAPI env 0 (snd (setLoadingMessage (loadingWord i) w)) with
    | (Return englishWord, w2) =>
        match translateEnglishToKorean env englishWord
                (snd (setLoadingMessage (loadingTranslation englishWord i count) w2))
        with
        | (Return koreanTranslation, w3) =>
            (Return (push fetchedWords {| english := englishWord;
                                          korean := koreanTranslation |}, true),
             snd (delay 1000 w3))
        | (Throw e, w3) =>
            attempt_catch i attempts fetchedWords foundValidWord e w3
        end
    | (Throw e, w2) => attempt_catch i attempts fetchedWords foundValidWord e w2
    end.
Proof.
  unfold while_body, try_catch, attempt_try, bind, setLoadingMessage, modify.
  simpl.
  match goal with
  | |- context [fetchWordFromAPI env 0 ?w1] =>
      destruct (fetchWordFromAPI env 0 w1) as [[englishWord | e] w2]
  end; [| reflexivity].
  simpl.
  match goal with
  | |- context [translateEnglishToKorean env englishWord ?w2'] =>
      destruct (translateEnglishToKorean env englishWord w2')
        as [[koreanTranslation | e] w3]
  end; reflexivity.
Qed.

(** The error a pass through the [try]/[catch] throws is the round's own. *)
Lemma fetchWord_round_error retryCount w e w' :
  try_catch (fetchWord_try env retryCount) (fetchWord_catch retryCount) w
  = (Throw e, w') ->
  exists round,
    failed_round round
    /\ round_error round = Some e
    /\ w' = {| page := page w; trace := (round ++ trace w)%list |}.
Proof.
  unfold try_catch, fetchWord_try, fetchWord_catch, bind, fetch_word.
  destruct (wordApi env (trace w)) as [e0 | response] eqn:Hword; simpl.
  - unfold retry_or_throw, bind, delay, emit, ret, throw.
    destruct (lt_dec retryCount 3); simpl; [discriminate |].
    intros [= <- <-].
    exists [EvWordRequest (Rejected e0)].
    split; [constructor | split; reflexivity].
  - destruct (ok response) eqn:Hok; simpl.
    + unfold response_json.
      destruct (json response) as [e0 | randomWord] eqn:Hjson; simpl.
      * unfold throw, retry_or_throw, bind, delay, emit, ret, throw.
        destruct (lt_dec retryCount 3); simpl; [discriminate |].
        intros [= <- <-].
        exists [EvWordRequest (Resolved response)].
        split; [constructor |]. split; [| reflexivity].
        simpl. rewrite Hok, Hjson. reflexivity.
      * unfold ret, fetch_dictionary; simpl.
        destruct (dictionaryApi env _ randomWord) as [e0 | dictResponse] eqn:Hdict;
          simpl.
        -- unfold retry_or_throw, bind, delay, emit, ret, throw.
           destruct (lt_dec retryCount 3); simpl; [discriminate |].
           intros [= <- <-].
           exists [EvDictRequest randomWord (Rejected e0);
                   EvWordRequest (Resolved response)].
           split; [constructor; reflexivity | split; reflexivity].
        -- destruct (ok dictResponse) eqn:Hdok; simpl; [discriminate |].
           unfold retry_or_throw, bind, delay, emit, ret, throw.
           destruct (lt_dec retryCount 3); simpl; [discriminate |].
           destruct (lt_dec retryCount 3); [contradiction |]. simpl.
           intros [= <- <-].
           exists [EvDictRequest randomWord (Resolved dictResponse);
                   EvWordRequest (Resolved response)].
           split; [constructor; exact Hdok |]. split; [| reflexivity].
           simpl. rewrite Hdok. reflexivity.
    + unfold retry_or_throw, bind, delay, emit, ret, throw.
      destruct (lt_dec retryCount 3); simpl; [discriminate |].
      destruct (lt_dec retryCount 3); [contradiction |]. simpl.
      intros [= <- <-].
      exists [EvWordRequest (Resolved response)].
      split; [constructor |]. split; [| reflexivity].
      simpl. rewrite Hok. reflexivity.
Qed.

(** ** The traffic of a load *)

Lemma while_loop_traffic n : forall i count attempts fetchedWords w,
  attempts + S n = MAX_ATTEMPTS_PER_WORD ->
  exists evs,
    trace (snd (while_loop env i count false attempts fetchedWords w))
    = (evs ++ trace w)%list
    /\ paced evs
    /\ 1 <= count_events is_word_request evs <= 4 * S n
    /\ count_events is_translate_request evs <= 1.
Proof.
  induction n as [| n IH]; intros i count attempts fetchedWords w Hleft.
  all: rewrite while_loop_step by (unfold MAX_ATTEMPTS_PER_WORD in *; lia).
  all: destruct (while_body_spec i count (attempts + 1) fetchedWords w)
         as (locals & evs & w' & Hbody & Htrace & Hframe & Hcases).
  all: rewrite Hbody.
  all: destruct Hcases as
         [(englishWord & koreanTranslation & fevs & tevs & w2 & w3
           & -> & -> & Hfevs & Htevs & Htranslate & Herror)
         | (e & text & fevs & -> & Hfailure & Hfevs
            & [(Hlast & -> & Herror) | (Hmore & -> & Herror)])].
  1, 4:
    destruct (fetched_attempt_paced Hfevs Htevs) as (Hpaced & Hwords & Htr);
    rewrite while_loop_exit by (left; reflexivity);
    exists (EvDelay 1000 :: tevs ++ fevs)%list;
    (split; [exact Htrace |]); (split; [exact Hpaced |]);
    (split; [lia | exact Htr]).
  - destruct (@failed_attempt_paced e text fevs Hfevs) as (Hpaced & Hwords & Htr).
    rewrite while_loop_exit by (left; reflexivity).
    exists (EvDelay 1000 :: EvConsoleError text (Some e) :: fevs)%list.
    split; [exact Htrace |]. split; [exact Hpaced |]. split; lia.
  - unfold MAX_ATTEMPTS_PER_WORD in *. lia.
  - unfold MAX_ATTEMPTS_PER_WORD in *. lia.
  - destruct (@failed_attempt_paced e text fevs Hfevs) as (Hpaced & Hwords & Htr).
    destruct (IH i count (attempts + 1) fetchedWords w' ltac:(lia))
      as (evs & Htrace' & Hpaced' & Hwords' & Htr').
    exists (evs ++ EvDelay 1000 :: EvConsoleError text (Some e) :: fevs)%list.
    split; [rewrite Htrace', Htrace, app_assoc; reflexivity |].
    split; [apply paced_app; assumption |].
    rewrite !count_events_app. split; lia.
Qed.

Lemma for_loop_traffic indices : forall count fetchedWords w,
  exists evs,
    trace (snd (for_loop env indices count fetchedWords w)) = (evs ++ trace w)%list
    /\ paced evs
    /\ List.length indices <= count_events is_word_request evs
       <= 20 * List.length indices
    /\ count_events is_translate_request evs <= List.length indices.
Proof.
  induction indices as [| i rest IH]; intros count fetchedWords w.
  - exists []. simpl.
    split; [reflexivity |]. split; [| cbv; lia].
    repeat split; cbv; try lia. constructor.
  - destruct (for_body_spec i count fetchedWords w)
      as (pair & attempts & evs0 & w' & Hloop & Hbody & Htrace0 & _).
    destruct (@while_loop_traffic 4 i count 0 fetchedWords w eq_refl)
      as (evs & Htrace & Hpaced & Hwords & Htr).
    rewrite Hloop in Htrace. simpl in Htrace.
    destruct (IH count (push fetchedWords pair) w')
      as (evs' & Htrace' & Hpaced' & Hwords' & Htr').
    exists (evs' ++ evs)%list.
    split.
    { simpl. unfold bind at 1. rewrite Hbody.
      rewrite Htrace', Htrace, app_assoc. reflexivity. }
    split; [apply paced_app; assumption |].
    rewrite !count_events_app. simpl List.length. split; lia.
Qed.

Lemma fetchAndTranslateWords_trace count w :
  trace (snd (fetchAndTranslateWords env count w))
  = trace (snd (for_loop env (seq 0 (Z.to_nat count)) count []
                  (snd (setError None
                          (snd (setLoadingMessage "단어 불러오는 중..."
                                  (snd (setIsLoading true w)))))))).
Proof.
  unfold fetchAndTranslateWords, bind. simpl.
  match goal with
  | |- context [for_loop env ?indices count [] ?w1] =>
      destruct (for_loop env indices count [] w1) as [[fetchedWords | e] w']
  end; simpl; [| reflexivity].
  destruct (Nat.ltb 0 (List.length fetchedWords)); reflexivity.
Qed.

(** ** The error cell during a load *)

Lemma for_loop_error indices : forall count fetchedWords w,
  exists evs,
    trace (snd (for_loop env indices count fetchedWords w)) = (evs ++ trace w)%list
    /\ (error (page (snd (for_loop env indices count fetchedWords w)))
        = error (page w)
        \/ (error (page (snd (for_loop env indices count fetchedWords w)))
            = Some MSG_PARTIAL_FAILURE
            /\ 5 <= count_events is_attempt_failure evs)).
Proof.
  induction indices as [| i rest IH]; intros count fetchedWords w.
  - exists []. simpl. auto.
  - destruct (for_body_spec i count fetchedWords w)
      as (pair & attempts & evs & w' & _ & Hbody & Htrace & _ & _ & _ & _
          & Houtcome).
    destruct (IH count (push fetchedWords pair) w') as (evs' & Htrace' & Herror').
    exists (evs' ++ evs)%list.
    simpl. unfold bind at 1 2 3. rewrite Hbody.
    split; [rewrite Htrace', Htrace, app_assoc; reflexivity |].
    rewrite count_events_app.
    destruct Herror' as [Hsame | [Hpartial Hfive]].
    + rewrite Hsame.
      destruct Houtcome as [(_ & Herror) | ((e & text & earlier & _ & _ & Hfail & _)
                                            & Hlast & Herror)].
      * left. exact Herror.
      * right. split; [exact Herror |].
        rewrite Hfail, Hlast. unfold MAX_ATTEMPTS_PER_WORD. lia.
    + right. split; [exact Hpartial | lia].
Qed.

Lemma fetchAndTranslateWords_error count w :
  (1 <= count)%Z ->
  error (page (snd (fetchAndTranslateWords env count w)))
  = error (page (snd (for_loop env (seq 0 (Z.to_nat count)) count []
                        (snd (setError None
                                (snd (setLoadingMessage "단어 불러오는 중..."
                                        (snd (setIsLoading true w))))))))).
Proof.
  intros Hcount.
  unfold fetchAndTranslateWords, bind. simpl.
  match goal with
  | |- context [for_loop env ?indices count [] ?w1] =>
      destruct (for_loop_spec indices count [] w1)
        as (fetchedWords & evs & w' & Hloop & _ & _ & Hlen & _);
      rewrite Hloop
  end.
  rewrite length_seq in Hlen. simpl.
  destruct fetchedWords as [| first others]; [simpl in Hlen; lia |].
  reflexivity.
Qed.

(** ** Loads when the word services always accept *)

Lemma fetchWordFromAPI_first_round retryCount w :
  always_accepting env ->
  exists randomWord response dictResponse,
    fetchWordFromAPI env retryCount w
    = (Return randomWord,
       {| page := page w;
          trace := EvDictRequest randomWord (Resolved dictResponse)
                   :: EvWordRequest (Resolved response) :: trace w |})
    /\ ok dictResponse = true.
Proof.
  intros [Hword Hdict].
  destruct (Hword (trace w)) as (response & randomWord & Hanswer & Hok & Hjson).
  destruct (Hdict (EvWordRequest (Resolved response) :: trace w) randomWord)
    as (dictResponse & Hdanswer & Hdok).
  exists randomWord, response, dictResponse.
  assert (Hround : try_catch (fetchWord_try env retryCount)
                             (fetchWord_catch retryCount) w
                   = (Return (inleft randomWord),
                      {| page := page w;
                         trace := EvDictRequest randomWord (Resolved dictResponse)
                                  :: EvWordRequest (Resolved response)
                                  :: trace w |})).
  { unfold try_catch, fetchWord_try, bind, fetch_word, response_json.
    rewrite Hanswer. simpl. rewrite Hok, Hjson. simpl.
    unfold fetch_dictionary. simpl. rewrite Hdanswer. simpl.
    rewrite Hdok. reflexivity. }
  split; [| exact Hdok].
  funelim (fetchWordFromAPI env retryCount w);
    rewrite Hround in Heq; inversion Heq; subst; reflexivity.
Qed.

Lemma while_loop_first_attempt i count fetchedWords w :
  always_accepting env ->
  exists pair evs w',
    while_loop env i count false 0 fetchedWords w
    = (Return (push fetchedWords pair, true, 1), w')
    /\ trace w' = (evs ++ trace w)%list
    /\ error (page w') = error (page w)
    /\ count_events is_word_request evs = 1
    /\ count_events is_dict_request evs = 1
    /\ count_events is_acceptance evs = 1
    /\ count_events is_delay evs = 1
    /\ count_events is_attempt_failure evs = 0.
Proof.
  intros Haccepting.
  rewrite while_loop_step by (unfold MAX_ATTEMPTS_PER_WORD; lia).
  rewrite while_body_unfold.
  destruct (fetchWordFromAPI_first_round 0
              (snd (setLoadingMessage (loadingWord i) w)) Haccepting)
    as (randomWord & response & dictResponse & Hfetch & Hdictok).
  rewrite Hfetch.
  match goal with
  | |- context [translateEnglishToKorean env randomWord ?w2] =>
      destruct (translateEnglishToKorean_events randomWord w2)
        as (koreanTranslation & tevs & Htranslate & Htevs);
      rewrite Htranslate
  end.
  rewrite while_loop_exit by (left; reflexivity).
  destruct (translate_events_counts Htevs) as (Tw & Td & Tdl & Tt & Ta & Tf).
  exists {| english := randomWord; korean := koreanTranslation |},
         (EvDelay 1000 :: tevs
          ++ [EvDictRequest randomWord (Resolved dictResponse);
              EvWordRequest (Resolved response)])%list.
  eexists. split; [reflexivity |].
  split; [simpl; rewrite <- app_assoc; reflexivity |].
  split; [reflexivity |].
  repeat split; count_step; rewrite ?Tw, ?Td, ?Tdl, ?Ta, ?Tf, ?Hdictok;
    reflexivity.
Qed.

Lemma for_loop_first_attempts indices : forall count fetchedWords w,
  always_accepting env ->
  exists evs,
    trace (snd (for_loop env indices count fetchedWords w)) = (evs ++ trace w)%list
    /\ error (page (snd (for_loop env indices count fetchedWords w)))
       = error (page w)
    /\ count_events is_word_request evs = List.length indices
    /\ count_events is_dict_request evs = List.length indices
    /\ count_events is_acceptance evs = List.length indices
    /\ count_events is_delay evs = List.length indices
    /\ count_events is_attempt_failure evs = 0.
Proof.
  induction indices as [| i rest IH]; intros count fetchedWords w Haccepting.
  - exists []. simpl. repeat split.
  - destruct (while_loop_first_attempt i count fetchedWords w Haccepting)
      as (pair & evs & w' & Hloop & Htrace & Herror & Hw & Hd & Ha & Hdl & Hf).
    destruct (IH count (push fetchedWords pair) w' Haccepting)
      as (evs' & Htrace' & Herror' & Hw' & Hd' & Ha' & Hdl' & Hf').
    exists (evs' ++ evs)%list.
    simpl. unfold bind at 1 2. unfold for_body, bind. rewrite Hloop. simpl.
    split; [rewrite Htrace', Htrace, app_assoc; reflexivity |].
    split; [congruence |].
    rewrite !count_events_app. repeat split; lia.
Qed.

(** ** Starting a session *)

Lemma handleStartClick_refused w :
  (wordCount (page w) <= 0)%Z
  \/ key_missing (GOOGLE_TRANSLATE_API_KEY env) = true ->
  exists text,
    handleStartClick env w
    = (Return tt, {| page := page w; trace := EvAlert text :: trace w |}).
Proof.
  intros Hrefused. unfold handleStartClick, bind, gets, alert, emit.
  destruct (wordCount (page w) <=? 0)%Z eqn:Hle; [eexists; reflexivity |].
  destruct Hrefused as [Hcount | Hkey]; [apply Z.leb_gt in Hle; lia |].
  rewrite Hkey. eexists; reflexivity.
Qed.

Lemma handleStartClick_unfold w :
  (1 <= wordCount (page w))%Z ->
  key_missing (GOOGLE_TRANSLATE_API_KEY env) = false ->
  handleStartClick env w
  = (Return tt,
     snd (setCurrentScreen 2
            (snd (fetchAndTranslateWords env (wordCount (page w))
                    (snd (setCurrentWordIndex 0 w)))))).
Proof.
  intros Hcount Hkey.
  destruct (fetchAndTranslateWords_spec (wordCount (page w))
              (snd (setCurrentWordIndex 0 w)))
    as (fetchedWords & evs & w' & Hload & _).
  set (w1 := snd (setCurrentWordIndex 0 w)) in *.
  unfold handleStartClick, bind, gets.
  destruct (wordCount (page w) <=? 0)%Z eqn:Hle;
    [apply Z.leb_le in Hle; lia |].
  rewrite Hkey.
  change (setCurrentWordIndex 0 w) with (Return tt, w1).
  cbv iota beta. rewrite Hload. reflexivity.
Qed.

Lemma handleStartClick_started w :
  (1 <= wordCount (page w))%Z ->
  key_missing (GOOGLE_TRANSLATE_API_KEY env) = false ->
  currentScreen (page (snd (handleStartClick env w))) = 2%Z
  /\ isLoading (page (snd (handleStartClick env w))) = false
  /\ currentWordIndex (page (snd (handleStartClick env w))) = 0%Z
  /\ wordCount (page (snd (handleStartClick env w))) = wordCount (page w)
  /\ List.length (allWordsForSession (page (snd (handleStartClick env w))))
     = Z.to_nat (wordCount (page w))
  /\ browsing_invariant (page (snd (handleStartClick env w)))
  /\ (error (page (snd (handleStartClick env w))) = None
      \/ error (page (snd (handleStartClick env w))) = Some MSG_PARTIAL_FAILURE).
Proof.
  intros Hcount Hkey.
  rewrite (handleStartClick_unfold w Hcount Hkey).
  pose proof (fetchAndTranslateWords_error (snd (setCurrentWordIndex 0 w)) Hcount)
    as Herror.
  match type of Herror with
  | _ = error (page (snd (for_loop env ?indices ?n [] ?w1))) =>
      destruct (for_loop_error indices n [] w1) as (evs1 & _ & Hcell)
  end.
  assert (Hreport :
            error (page (snd (fetchAndTranslateWords env (wordCount (page w))
                                (snd (setCurrentWordIndex 0 w))))) = None
            \/ error (page (snd (fetchAndTranslateWords env (wordCount (page w))
                                   (snd (setCurrentWordIndex 0 w)))))
               = Some MSG_PARTIAL_FAILURE).
  { rewrite Herror.
    destruct Hcell as [Hsame | [Hpartial _]];
      [left; exact Hsame | right; exact Hpartial]. }
  clear Herror Hcell.
  destruct (fetchAndTranslateWords_spec (wordCount (page w))
              (snd (setCurrentWordIndex 0 w)))
    as (fetchedWords & evs & w' & Hload & _ & Hlen & Hall & Hdata & Hloading & _
        & Hwc & Hindex & _).
  rewrite Hload in Hreport |- *.
  simpl in Hindex, Hwc, Hreport |- *.
  repeat (split; [reflexivity || assumption || congruence |]).
  split; [| exact Hreport].
  unfold browsing_invariant. simpl. rewrite Hindex, Hall, Hdata.
  split; [lia | reflexivity].
Qed.

Lemma user_step_invariant w click :
  session_invariant (page w) ->
  session_invariant (page (user_step env w click)).
Proof.
  intros Hinv. unfold user_step.
  destruct (enabled (render (page w)) click) eqn:Henabled; [| exact Hinv].
  destruct Hinv as (Hloading & Herror & [Hsetup | [Hscreen Hbrowse]]).
  - (* the setup screen *)
    unfold render in Henabled. rewrite Hsetup in Henabled. simpl in Henabled.
    destruct click; simpl in Henabled; try discriminate.
    + simpl. repeat split; auto.
    + simpl dispatch.
      destruct (Z_le_gt_dec (wordCount (page w)) 0) as [Hle | Hgt].
      { destruct (handleStartClick_refused w (or_introl Hle)) as (text & ->).
        simpl. repeat split; auto. }
      destruct (key_missing (GOOGLE_TRANSLATE_API_KEY env)) eqn:Hkey.
      { destruct (handleStartClick_refused w (or_intror Hkey)) as (text & ->).
        simpl. repeat split; auto. }
      destruct (handleStartClick_started w ltac:(lia) Hkey)
        as (Hs & Hl & _ & _ & _ & Hb & Herr).
      split; [exact Hl |]. split; [| right; split; [left; exact Hs | exact Hb]].
      destruct Herr as [-> | ->]; discriminate.
  - destruct Hscreen as [Hword | Hfinished].
    + (* the word screen *)
      destruct (render_browsing Hword Hloading Hbrowse) as (data & _ & Hview).
      rewrite Hview in Henabled.
      destruct click; simpl in Henabled; try discriminate.
      * apply negb_true_iff, Z.eqb_neq in Henabled.
        destruct (handlePreviousWord_moves w Hbrowse Henabled)
          as (Hb & He & Hl & Hs).
        simpl dispatch. split; [congruence |].
        split; [rewrite He; discriminate |].
        right. split; [left; congruence | exact Hb].
      * destruct (handleNextWord_invariant w Hbrowse) as (Hb & He & Hl & Hs).
        simpl dispatch. split; [congruence |].
        split; [rewrite He; exact Herror |].
        right. split; [| exact Hb].
        destruct Hs as [Hs | Hs]; [left; congruence | right; exact Hs].
    + (* the finished screen *)
      unfold render in Henabled. rewrite Hfinished in Henabled.
      simpl in Henabled.
      destruct click; simpl in Henabled; try discriminate; simpl;
        (split; [exact Hloading |]); (split; [exact Herror |]);
        right; (split; [right; exact Hfinished | exact Hbrowse]).
Qed.

Lemma user_run_invariant clicks : forall w,
  session_invariant (page w) ->
  session_invariant (page (user_run env clicks w)).
Proof.
  induction clicks as [| click clicks IH]; intros w Hinv; [exact Hinv |].
  simpl. apply IH. apply user_step_invariant. exact Hinv.
Qed.

(** ** A slot whose attempts all fail *)




End ComponentFacts.

(** * The properties of the specification *)

(** C4. translateEnglishToKorean never throws: for every word and every answer
    of the network it returns a string.  When the credential is absent it
    returns the fixed message and performs no network request: the only
    effect is the [console.error]. *)
Theorem translateEnglishToKorean_never_throws env englishWord w :
  (exists text w', translateEnglishToKorean env englishWord w = (Return text, w'))
  /\ (key_missing (GOOGLE_TRANSLATE_API_KEY env) = true ->
      translateEnglishToKorean env englishWord w
      = (Return "번역 API 키 없음",
         {| page := page w;
            trace := EvConsoleError "Google Translate API Key is not set." None
                     :: trace w |})).
Proof.
  split.
  - destruct (translateEnglishToKorean_events env englishWord w)
      as (text & evs & Heq & _).
    eauto.
  - apply translate_without_key.
Qed.

Lemma translateEnglishToKorean_never_throws_witness :
  key_missing (GOOGLE_TRANSLATE_API_KEY env_offline) = true
  /\ translateEnglishToKorean env_offline "apple" world0
     = (Return "번역 API 키 없음",
        {| page := initialState;
           trace := [EvConsoleError "Google Translate API Key is not set." None] |}).
Proof.
  split; [reflexivity |].
  apply (proj2 (translateEnglishToKorean_never_throws env_offline "apple" world0)).
  reflexivity.
Defined.

(** C9. Whenever the [try] block of translateEnglishToKorean throws an error
    [e], the function returns: the invalid-key message if [e.message] contains
    "API key not valid"; otherwise the quota message if it contains
    "daily limit exceeded"; otherwise "번역 실패: " followed by [e.message]. *)
Theorem translation_error_classification env key englishWord w e w1 :
  GOOGLE_TRANSLATE_API_KEY env = Some key ->
  truthy key = true ->
  translate_try env key englishWord w = (Throw e, w1) ->
  exists text w',
    translateEnglishToKorean env englishWord w = (Return text, w')
    /\ (contains (message e) "API key not valid" ->
        text = "번역 실패: API 키가 유효하지 않습니다.")
    /\ (~ contains (message e) "API key not valid" ->
        contains (message e) "daily limit exceeded" ->
        text = "번역 실패: 일일 사용량 한도 초과.")
    /\ (~ contains (message e) "API key not valid" ->
        ~ contains (message e) "daily limit exceeded" ->
        text = "번역 실패: " ++ message e).
Proof.
  intros Hkey Htruthy Htry.
  rewrite (translate_with_key env englishWord w Hkey Htruthy).
  unfold try_catch. rewrite Htry, translate_catch_eq.
  do 2 eexists. split; [reflexivity |].
  unfold classify.
  repeat split.
  - intros Hvalid. apply includes_spec in Hvalid. rewrite Hvalid. reflexivity.
  - intros Hvalid Hquota.
    apply includes_false in Hvalid. apply includes_spec in Hquota.
    rewrite Hvalid, Hquota. reflexivity.
  - intros Hvalid Hquota.
    apply includes_false in Hvalid. apply includes_false in Hquota.
    rewrite Hvalid, Hquota. reflexivity.
Qed.

Lemma translation_error_classification_witness :
  exists text w',
    translateEnglishToKorean env_bad_key "apple" world0 = (Return text, w')
    /\ (contains "Translation API error: API key not valid. Please pass a valid API key."
                 "API key not valid" ->
        text = "번역 실패: API 키가 유효하지 않습니다.")
    /\ (~ contains "Translation API error: API key not valid. Please pass a valid API key."
                   "API key not valid" ->
        contains "Translation API error: API key not valid. Please pass a valid API key."
                 "daily limit exceeded" ->
        text = "번역 실패: 일일 사용량 한도 초과.")
    /\ (~ contains "Translation API error: API key not valid. Please pass a valid API key."
                   "API key not valid" ->
        ~ contains "Translation API error: API key not valid. Please pass a valid API key."
                   "daily limit exceeded" ->
        text = "번역 실패: "
               ++ "Translation API error: API key not valid. Please pass a valid API key.").
Proof.
  apply (@translation_error_classification env_bad_key "key" "apple" world0
           (Error "Translation API error: API key not valid. Please pass a valid API key.")
           (snd (translate_try env_bad_key "key" "apple" world0)));
    reflexivity.
Defined.

(** C3. One call of fetchWordFromAPI terminates (the function is total) and
    performs at least one and at most 4 round trips to the word endpoint,
    counting the retries already spent: with [retryCount = 0], the top-level
    call of the loader, at most 4.  Every retry is preceded by one delay, so
    there are at most 3 retries; dictionary round trips never outnumber word
    round trips; a call that throws has used the whole budget, whichever of
    the two failures each round met. *)
Theorem fetchWordFromAPI_retry_budget env retryCount w :
  exists result evs,
    fetchWordFromAPI env retryCount w
      = (result, {| page := page w; trace := (evs ++ trace w)%list |})
    /\ 1 <= count_events is_word_request evs
    /\ count_events is_word_request evs + Nat.min retryCount 3 <= 4
    /\ count_events is_dict_request evs <= count_events is_word_request evs
    /\ count_events is_delay evs + 1 = count_events is_word_request evs
    /\ match result with
       | Throw _ => count_events is_word_request evs + Nat.min retryCount 3 = 4
       | Return _ => True
       end.
Proof.
  destruct (fetchWordFromAPI_events env retryCount w)
    as (result & evs & Hcall & Hevs).
  exists result, evs. split; [exact Hcall |].
  destruct (fetch_events_counts Hevs) as (Hw1 & Hw4 & Hd & Hdl & _).
  repeat (split; [assumption |]).
  destruct result as [randomWord | e]; [exact I |].
  destruct (fetch_events_throw Hevs) as (_ & Hall).
  destruct (le_lt_dec retryCount 3) as [Hle | Hgt]; [specialize (Hall Hle); lia |].
  lia.
Qed.

(** Word failures and dictionary failures draw on the same budget: with the
    two alternating, the call gives up after 4 word round trips and 2
    dictionary round trips. *)
Example fetchWordFromAPI_shared_budget :
  let '(result, w') := fetchWordFromAPI env_alternating 0 world0 in
  result = Throw (Error "Could not find a valid word.")
  /\ count_events is_word_request (trace w') = 4
  /\ count_events is_dict_request (trace w') = 2
  /\ count_events is_delay (trace w') = 3.
Proof. vm_compute. repeat split. Qed.

(** C5. fetchWordFromAPI returns a word only straight after a dictionary
    round trip for that very word resolved with [response.ok]; and in every
    session load each translation request is for a word that an earlier
    dictionary round trip of the same load accepted. *)
Theorem dictionary_gate_before_translation env :
  (forall retryCount w,
      match fetchWordFromAPI env retryCount w with
      | (Return randomWord, w') =>
          exists dictResponse earlier,
            trace w' = EvDictRequest randomWord (Resolved dictResponse) :: earlier
            /\ ok dictResponse = true
      | (Throw _, _) => True
      end)
  /\ (forall count w,
        exists evs,
          trace (snd (fetchAndTranslateWords env count w)) = (evs ++ trace w)%list
          /\ gate_respected evs).
Proof.
  split.
  - intros retryCount w.
    destruct (fetchWordFromAPI_events env retryCount w)
      as (result & evs & -> & Hevs).
    destruct result as [randomWord | e]; [| exact I].
    destruct (fetch_events_return Hevs) as (dictResponse & earlier & -> & Hok).
    exists dictResponse, (earlier ++ trace w)%list.
    split; [reflexivity | exact Hok].
  - intros count w.
    destruct (fetchAndTranslateWords_spec env count w)
      as (fetchedWords & evs & w' & -> & Htrace & _ & _ & _ & _ & _ & _ & _ & _
          & Hgate & _).
    exists evs. split; assumption.
Qed.

(** The gate at work: in a load of one word with all services answering,
    the translation request directly follows the acceptance of its word. *)
Example dictionary_gate_online :
  trace (snd (fetchAndTranslateWords env_online 1 world0))
  = [EvDelay 1000;
     EvTranslateRequest "key" "apple" (Resolved (ok_response (translated "사과")));
     EvDictRequest "apple" (Resolved (ok_response tt));
     EvWordRequest (Resolved (ok_response "apple"))].
Proof. vm_compute. reflexivity. Qed.

(** C1. For every requested count N >= 1, fetchAndTranslateWords returns
    normally (no slot aborts the loop) and the session list it stores has
    exactly N pairs, each one a placeholder or a word accepted by the
    dictionary during the load paired with what translateEnglishToKorean
    returned for it. *)
Theorem session_list_length env count w :
  (1 <= count)%Z ->
  exists fetchedWords evs w',
    fetchAndTranslateWords env count w = (Return tt, w')
    /\ trace w' = (evs ++ trace w)%list
    /\ allWordsForSession (page w') = fetchedWords
    /\ Z.of_nat (List.length fetchedWords) = count
    /\ Forall (slot_filled env evs) fetchedWords.
Proof.
  intros Hcount.
  destruct (fetchAndTranslateWords_spec env count w)
    as (fetchedWords & evs & w' & Hload & Htrace & Hlen & Hall & _ & _ & _ & _ & _
        & _ & _ & Hfilled).
  exists fetchedWords, evs, w'.
  repeat (split; [assumption |]).
  split; [lia | exact Hfilled].
Qed.

Lemma session_list_length_witness :
  exists fetchedWords evs w',
    fetchAndTranslateWords env_online 3 world0 = (Return tt, w')
    /\ trace w' = (evs ++ trace world0)%list
    /\ allWordsForSession (page w') = fetchedWords
    /\ Z.of_nat (List.length fetchedWords) = 3%Z
    /\ Forall (slot_filled env_online evs) fetchedWords.
Proof.
  apply (@session_list_length env_online 3 world0). lia.
Defined.

(** The count is reached under total failure too: offline, three slots give
    three placeholders. *)
Example session_list_offline :
  allWordsForSession (page (snd (fetchAndTranslateWords env_offline 3 world0)))
  = [placeholder (Error "Failed to fetch");
     placeholder (Error "Failed to fetch");
     placeholder (Error "Failed to fetch")].
Proof. vm_compute. reflexivity. Qed.



(** C10. A translation failure never costs an attempt.  In every attempt,
    if fetchWordFromAPI returns a word, that word is pushed on this very
    attempt with whatever string translateEnglishToKorean returns (it always
    returns one) and the slot is done; only when fetchWordFromAPI throws does
    the [catch] block run, pushing the placeholder on the last attempt and
    nothing before.  Hence for a whole slot: either the pair is a word the
    dictionary accepted during the slot, or it is the placeholder and then
    all 5 attempts failed in fetchWordFromAPI, with no dictionary acceptance
    and no translation request at all during the slot. *)
Theorem placeholder_only_from_fetch_failure env i count fetchedWords w :
  (forall attempts foundValidWord,
      match fetchWordFromAPI env 0 (snd (setLoadingMessage (loadingWord i) w)) with
      | (Return englishWord, w2) =>
          exists koreanTranslation w3,
            translateEnglishToKorean env englishWord
              (snd (setLoadingMessage (loadingTranslation englishWord i count) w2))
            = (Return koreanTranslation, w3)
            /\ while_body env i count attempts fetchedWords foundValidWord w
               = (Return (push fetchedWords {| english := englishWord;
                                               korean := koreanTranslation |},
                          true),
                  snd (delay 1000 w3))
      | (Throw e, _) =>
          fst (while_body env i count attempts fetchedWords foundValidWord w)
          = Return (if Nat.leb MAX_ATTEMPTS_PER_WORD attempts
                    then (push fetchedWords (placeholder e), true)
                    else (fetchedWords, foundValidWord))
      end)
  /\ exists pair attempts evs w',
       while_loop env i count false 0 fetchedWords w
         = (Return (push fetchedWords pair, true, attempts), w')
       /\ trace w' = (evs ++ trace w)%list
       /\ (filled_by_fetch env attempts pair evs
           \/ (filled_by_placeholder attempts pair evs
               /\ attempts = MAX_ATTEMPTS_PER_WORD)).
Proof.
  split.
  - intros attempts foundValidWord.
    rewrite while_body_unfold.
    destruct (fetchWordFromAPI env 0 (snd (setLoadingMessage (loadingWord i) w)))
      as [[englishWord | e] w2].
    + destruct (translateEnglishToKorean_events env englishWord
                  (snd (setLoadingMessage (loadingTranslation englishWord i count) w2)))
        as (koreanTranslation & tevs & Htranslate & _).
      rewrite Htranslate.
      do 2 eexists. split; reflexivity.
    + unfold attempt_catch, bind, console_error, delay, emit.
      destruct (Nat.leb MAX_ATTEMPTS_PER_WORD attempts); reflexivity.
  - destruct (for_body_spec env i count fetchedWords w)
      as (pair & attempts & evs & w' & Hloop & _ & Htrace & _ & _ & _ & _
          & Houtcome).
    exists pair, attempts, evs, w'.
    split; [exact Hloop |]. split; [exact Htrace |].
    destruct Houtcome as [(Hfetch & _) | (Hplaceholder & Hlast & _)]; auto.
Qed.

(** With the translation key refused, every slot still holds a fetched word
    on its first attempt, with the error text as its target. *)
Example translation_failure_fills_slot :
  while_loop env_bad_key 0 1 false 0 [] world0
  = (Return ([{| english := "apple";
                 korean := "번역 실패: API 키가 유효하지 않습니다." |}],
             true, 1),
     snd (while_loop env_bad_key 0 1 false 0 [] world0)).
Proof. vm_compute. reflexivity. Qed.

(** C8, as the code has it.  With the credential missing, handleStartClick
    starts no session load: it only alerts, and the component state, session
    list included, is unchanged.  When fetchAndTranslateWords(1) itself runs
    with the credential missing, the list has exactly one pair: a word the
    dictionary accepted, with the fixed missing-key message as its target, or,
    when all 5 attempts failed to fetch a word, the placeholder. *)
Theorem missing_key_session env w :
  key_missing (GOOGLE_TRANSLATE_API_KEY env) = true ->
  (exists text,
      handleStartClick env w
      = (Return tt, {| page := page w; trace := EvAlert text :: trace w |}))
  /\ exists pair evs w',
       fetchAndTranslateWords env 1 w = (Return tt, w')
       /\ trace w' = (evs ++ trace w)%list
       /\ allWordsForSession (page w') = [pair]
       /\ ((existsb (accepts (english pair)) evs = true
            /\ korean pair = "번역 API 키 없음")
           \/ (exists e,
                 pair = placeholder e
                 /\ count_events is_acceptance evs = 0
                 /\ count_events is_attempt_failure evs = 5)).
Proof.
  intros Hmissing. split.
  - unfold handleStartClick, bind, gets, alert, emit. rewrite Hmissing.
    destruct (wordCount (page w) <=? 0)%Z; eexists; reflexivity.
  - unfold fetchAndTranslateWords.
    change (seq 0 (Z.to_nat 1)) with [0]. simpl for_loop.
    unfold bind at 1. unfold setIsLoading at 1. unfold modify at 1.
    unfold bind at 1. unfold setLoadingMessage at 1. unfold modify at 1.
    unfold bind at 1. unfold setError at 1. unfold modify at 1.
    unfold bind at 1. unfold bind at 1.
    match goal with
    | |- context [for_body env 0 1 [] ?w1] =>
        destruct (for_body_spec env 0 1 [] w1)
          as (pair & attempts & evs & w' & _ & Hbody & Htrace & _ & _ & _ & _
              & Houtcome);
        rewrite Hbody
    end.
    simpl in Htrace.
    exists pair, evs. eexists.
    split; [reflexivity |]. split; [exact Htrace |]. split; [reflexivity |].
    destruct Houtcome as [(((w2 & w3 & Htranslate) & Haccepted & _) & _)
                         | ((e & text & earlier & -> & -> & Hfail & Hnone & _)
                            & Hlast & _)].
    + left. split; [exact Haccepted |].
      rewrite (translate_without_key env (english pair) w2 Hmissing) in Htranslate.
      injection Htranslate as Hkorean _. symmetry. exact Hkorean.
    + right. exists e. split; [reflexivity |]. split; [exact Hnone |].
      rewrite Hfail, Hlast. reflexivity.
Qed.

Lemma missing_key_session_witness :
  key_missing (GOOGLE_TRANSLATE_API_KEY env_no_key) = true
  /\ allWordsForSession (page (snd (fetchAndTranslateWords env_no_key 1 world0)))
     = [{| english := "apple"; korean := "번역 API 키 없음" |}]
  /\ exists pair evs w',
       fetchAndTranslateWords env_no_key 1 world0 = (Return tt, w')
       /\ trace w' = (evs ++ trace world0)%list
       /\ allWordsForSession (page w') = [pair]
       /\ ((existsb (accepts (english pair)) evs = true
            /\ korean pair = "번역 API 키 없음")
           \/ (exists e,
                 pair = placeholder e
                 /\ count_events is_acceptance evs = 0
                 /\ count_events is_attempt_failure evs = 5)).
Proof.
  split; [reflexivity |]. split; [vm_compute; reflexivity |].
  apply (proj2 (@missing_key_session env_no_key world0 eq_refl)).
Defined.

(** C8 as stated fails.  With the credential missing and 1 in the count
    field, clicking Start leaves the session list empty; and a load of one
    word run offline without the credential yields the placeholder, whose
    target is not the missing-key message. *)
Lemma missing_key_session_counterexample :
  key_missing (GOOGLE_TRANSLATE_API_KEY env_no_key) = true
  /\ wordCount (page (snd (handleWordCountChange 1 world0))) = 1%Z
  /\ allWordsForSession
       (page (snd (handleStartClick env_no_key
                     (snd (handleWordCountChange 1 world0))))) = []
  /\ key_missing (GOOGLE_TRANSLATE_API_KEY env_offline) = true
  /\ allWordsForSession (page (snd (fetchAndTranslateWords env_offline 1 world0)))
     = [{| english := "오류 단어"; korean := "로딩 실패: Failed to fetch..." |}]
  /\ "로딩 실패: Failed to fetch..." <> "번역 API 키 없음".
Proof.
  repeat split; try (vm_compute; reflexivity).
  discriminate.
Qed.

(** C6. From a cursor i with 1 <= i <= length - 1, handlePreviousWord moves
    the cursor to i - 1.  At cursor 0 it leaves the cursor, the displayed
    word, the list and the screen as they are and reports
    "이전 단어가 없습니다." in [error].  At cursor length - 1,
    handleNextWord leaves the cursor where it is and switches to screen 3, the
    finished screen. *)
Theorem cursor_navigation w :
  ((1 <= currentWordIndex (page w)
      <= Z.of_nat (List.length (allWordsForSession (page w))) - 1)%Z ->
   currentWordIndex (page (snd (handlePreviousWord w)))
   = (currentWordIndex (page w) - 1)%Z)
  /\ (currentWordIndex (page w) = 0%Z ->
      fst (handlePreviousWord w) = Return tt
      /\ currentWordIndex (page (snd (handlePreviousWord w))) = 0%Z
      /\ currentWordData (page (snd (handlePreviousWord w)))
         = currentWordData (page w)
      /\ allWordsForSession (page (snd (handlePreviousWord w)))
         = allWordsForSession (page w)
      /\ currentScreen (page (snd (handlePreviousWord w)))
         = currentScreen (page w)
      /\ error (page (snd (handlePreviousWord w)))
         = Some "이전 단어가 없습니다.")
  /\ (currentWordIndex (page w)
      = (Z.of_nat (List.length (allWordsForSession (page w))) - 1)%Z ->
      currentScreen (page (snd (handleNextWord w))) = 3%Z
      /\ currentWordIndex (page (snd (handleNextWord w)))
         = currentWordIndex (page w)).
Proof.
  split; [| split].
  - intros Hrange. unfold handlePreviousWord, bind, gets.
    destruct (currentWordIndex (page w) >? 0)%Z eqn:Hpos; [reflexivity |].
    rewrite Z.gtb_ltb in Hpos. apply Z.ltb_ge in Hpos. lia.
  - intros Hzero. unfold handlePreviousWord, bind, gets.
    rewrite Hzero. simpl. rewrite Hzero. repeat split.
  - intros Hlast. unfold handleNextWord, bind, gets.
    destruct (currentWordIndex (page w) + 1
              <? Z.of_nat (List.length (allWordsForSession (page w))))%Z eqn:Hnext.
    + apply Z.ltb_lt in Hnext. lia.
    + split; reflexivity.
Qed.

Lemma cursor_navigation_witness :
  currentWordIndex (page (snd (handlePreviousWord (snd (handleNextWord world_browsing)))))
  = 0%Z
  /\ error (page (snd (handlePreviousWord world_browsing)))
     = Some "이전 단어가 없습니다."
  /\ currentScreen
       (page (snd (handleNextWord
                     (snd (handleNextWord (snd (handleNextWord world_browsing)))))))
     = 3%Z.
Proof.
  split; [| split].
  - apply (proj1 (cursor_navigation (snd (handleNextWord world_browsing)))).
    vm_compute. split; discriminate.
  - apply (proj1 (proj2 (cursor_navigation world_browsing))).
    vm_compute. reflexivity.
  - apply (proj2 (proj2 (cursor_navigation
                           (snd (handleNextWord (snd (handleNextWord world_browsing))))))).
    vm_compute. reflexivity.
Defined.

(** The scenario of three words: the cursor starts at 0 and three "next"
    actions give cursors 1 and 2 and then the finished screen. *)
Example three_words_scenario :
  let w1 := snd (handleNextWord world_browsing) in
  let w2 := snd (handleNextWord w1) in
  let w3 := snd (handleNextWord w2) in
  List.length (allWordsForSession (page world_browsing)) = 3
  /\ map (fun w => (currentWordIndex (page w), currentScreen (page w)))
         [world_browsing; w1; w2; w3]
     = [(0, 2); (1, 2); (2, 2); (2, 3)]%Z.
Proof. vm_compute. split; reflexivity. Qed.

(** C7. The browsing invariant (the cursor is inside the session list and the
    displayed word is the one under the cursor) is preserved by handleNextWord
    and handlePreviousWord.  It is established by handleStartClick whenever a
    load starts (count field at least 1, credential present), which also
    switches to screen 2. *)
Theorem browsing_invariant_preserved :
  (forall w,
      browsing_invariant (page w) ->
      browsing_invariant (page (snd (handleNextWord w)))
      /\ browsing_invariant (page (snd (handlePreviousWord w))))
  /\ (forall env w,
        (1 <= wordCount (page w))%Z ->
        key_missing (GOOGLE_TRANSLATE_API_KEY env) = false ->
        currentScreen (page (snd (handleStartClick env w))) = 2%Z
        /\ browsing_invariant (page (snd (handleStartClick env w)))).
Proof.
  split.
  - intros w [Hrange Hdata]. split.
    + unfold handleNextWord, bind, gets.
      destruct (currentWordIndex (page w) + 1
                <? Z.of_nat (List.length (allWordsForSession (page w))))%Z eqn:Hnext.
      * apply Z.ltb_lt in Hnext. split; simpl; [lia | reflexivity].
      * split; simpl; assumption.
    + unfold handlePreviousWord, bind, gets.
      destruct (currentWordIndex (page w) >? 0)%Z eqn:Hpos.
      * rewrite Z.gtb_ltb in Hpos. apply Z.ltb_lt in Hpos.
        split; simpl; [lia | reflexivity].
      * split; simpl; assumption.
  - intros env w Hcount Hkey.
    destruct (fetchAndTranslateWords_spec env (wordCount (page w))
                (snd (setCurrentWordIndex 0 w)))
      as (fetchedWords & evs & w' & Hload & _ & Hlen & Hall & Hdata & _ & _
          & _ & Hindex & _).
    assert (Hstart : handleStartClick env w
                     = (Return tt, snd (setCurrentScreen 2 w'))).
    { unfold handleStartClick, bind, gets.
      destruct (wordCount (page w) <=? 0)%Z eqn:Hle;
        [apply Z.leb_le in Hle; lia |].
      rewrite Hkey.
      change (setCurrentWordIndex 0 w)
        with (Return tt, snd (setCurrentWordIndex 0 w)).
      cbv iota beta. rewrite Hload. reflexivity. }
    rewrite Hstart. simpl in Hindex |- *.
    split; [reflexivity |].
    unfold browsing_invariant. simpl.
    rewrite Hindex, Hall, Hdata. split; [lia | reflexivity].
Qed.

Lemma browsing_invariant_preserved_witness :
  browsing_invariant (page world_browsing)
  /\ browsing_invariant (page (snd (handleNextWord world_browsing)))
  /\ browsing_invariant (page (snd (handlePreviousWord world_browsing))).
Proof.
  assert (Hstart : browsing_invariant (page world_browsing)).
  { apply (proj2 browsing_invariant_preserved env_online
             (snd (handleWordCountChange 3 world0))).
    - vm_compute. discriminate.
    - reflexivity. }
  split; [exact Hstart |].
  apply (proj1 browsing_invariant_preserved world_browsing Hstart).
Defined.

(** * Further properties of the code *)

(** X1. When fetchWordFromAPI returns a word, that word is the body of the
    last word round trip and was accepted by the last dictionary round trip:
    these are the two newest events, nothing is requested after the
    acceptance, no earlier round of the call was accepted, and the component
    state is untouched. *)
Theorem fetchWordFromAPI_returns_last_word env retryCount w randomWord w' :
  fetchWordFromAPI env retryCount w = (Return randomWord, w') ->
  page w' = page w
  /\ exists response dictResponse earlier evs,
       trace w' = (evs ++ trace w)%list
       /\ evs = EvDictRequest randomWord (Resolved dictResponse)
                :: EvWordRequest (Resolved response) :: earlier
       /\ ok response = true
       /\ json response = inr randomWord
       /\ ok dictResponse = true
       /\ count_events is_acceptance evs = 1.
Proof.
  intros Hcall.
  destruct (fetchWordFromAPI_events env retryCount w)
    as (result & evs & Hevents & Hevs).
  rewrite Hcall in Hevents. injection Hevents as <- ->.
  split; [reflexivity |].
  destruct (fetch_events_return_shape Hevs)
    as (response & dictResponse & earlier & Hshape & Hok & Hjson & Hdok & Hone).
  exists response, dictResponse, earlier, evs. auto 10.
Qed.

Lemma fetchWordFromAPI_returns_last_word_witness :
  page (snd (fetchWordFromAPI env_online 0 world0)) = page world0
  /\ exists response dictResponse earlier evs,
       trace (snd (fetchWordFromAPI env_online 0 world0))
       = (evs ++ trace world0)%list
       /\ evs = EvDictRequest "apple" (Resolved dictResponse)
                :: EvWordRequest (Resolved response) :: earlier
       /\ ok response = true
       /\ json response = inr "apple"
       /\ ok dictResponse = true
       /\ count_events is_acceptance evs = 1.
Proof.
  apply (@fetchWordFromAPI_returns_last_word env_online 0 world0 "apple").
  vm_compute. reflexivity.
Defined.

(** X2. When fetchWordFromAPI throws, the error is the one of its last round:
    the rejection of that round's [fetch] or [response.json()], or
    "Could not fetch a random word." / "Could not find a valid word." when
    that round's word or dictionary response was not [ok].  The errors of the
    earlier rounds are dropped. *)
Theorem fetchWordFromAPI_throws_last_error env retryCount w e w' :
  fetchWordFromAPI env retryCount w = (Throw e, w') ->
  exists round earlier,
    trace w' = (round ++ earlier)%list
    /\ failed_round round
    /\ round_error round = Some e
    /\ (earlier = trace w \/ exists older, earlier = EvDelay 1000 :: older).
Proof.
  revert e w'.
  funelim (fetchWordFromAPI env retryCount w); intros e0 w0 Hcall.
  - discriminate.
  - pose proof (fetchWord_round env retryCount w) as Hround.
    rewrite Heq in Hround. destruct Hround as (round & Hfailed & ->).
    destruct (H e0 w0 Hcall) as (last & earlier & Htrace & Hlast & Herr & Hsep).
    exists last, earlier. repeat split; try assumption.
    right. destruct Hsep as [-> | Holder]; [| exact Holder].
    simpl. eauto.
  - injection Hcall as <- <-.
    destruct (@fetchWord_round_error env retryCount w e w' Heq)
      as (round & Hfailed & Herr & ->).
    exists round, (trace w). repeat split; auto.
Qed.

Lemma fetchWordFromAPI_throws_last_error_witness :
  exists round earlier,
    trace (snd (fetchWordFromAPI env_alternating 0 world0))
    = (round ++ earlier)%list
    /\ failed_round round
    /\ round_error round = Some (Error "Could not find a valid word.")
    /\ (earlier = trace world0 \/ exists older, earlier = EvDelay 1000 :: older).
Proof.
  apply (@fetchWordFromAPI_throws_last_error env_alternating 0 world0).
  vm_compute. reflexivity.
Defined.

(** X3. The traffic of a session load of N >= 0 words: between N and 20 N word
    round trips, no more dictionary than word round trips, at most N
    translation requests, and exactly one timer per word round trip, each of
    1000 ms: every word request is followed by a one-second pause, so a load
    of N words waits at least N seconds. *)
Theorem session_load_traffic env count w :
  exists evs,
    trace (snd (fetchAndTranslateWords env count w)) = (evs ++ trace w)%list
    /\ Z.to_nat count <= count_events is_word_request evs <= 20 * Z.to_nat count
    /\ count_events is_dict_request evs <= count_events is_word_request evs
    /\ count_events is_translate_request evs <= Z.to_nat count
    /\ count_events is_delay evs = count_events is_word_request evs
    /\ Forall pause_1000 evs.
Proof.
  rewrite fetchAndTranslateWords_trace.
  match goal with
  | |- context [for_loop env ?indices count [] ?w1] =>
      destruct (for_loop_traffic env indices count [] w1)
        as (evs & Htrace & (Hpause & Hdict & Hall) & Hwords & Htr)
  end.
  rewrite length_seq in Hwords, Htr.
  exists evs. split; [exact Htrace | auto].
Qed.

(** The bounds are reached: offline, one slot costs 20 word round trips and as
    many pauses; online, one. *)
Example session_load_traffic_extremes :
  count_events is_word_request
    (trace (snd (fetchAndTranslateWords env_offline 1 world0))) = 20
  /\ count_events is_delay
       (trace (snd (fetchAndTranslateWords env_offline 1 world0))) = 20
  /\ count_events is_word_request
       (trace (snd (fetchAndTranslateWords env_online 1 world0))) = 1.
Proof. vm_compute. repeat split. Qed.


(** X5. What translateEnglishToKorean makes of a response whose body can be
    read.  An [ok] response gives its [translatedText], unchanged and without
    console output.  A response that is not [ok] gives the message the [catch]
    block derives from "Translation API error: " followed by the message of
    the body's [error], or by the HTTP status text when the body has none. *)
Theorem translation_by_response env key englishWord w response body :
  GOOGLE_TRANSLATE_API_KEY env = Some key ->
  truthy key = true ->
  translationApi env (trace w) key englishWord = Resolved response ->
  json response = inr body ->
  (ok response = true ->
   forall text,
     translatedText body = inr text ->
     translateEnglishToKorean env englishWord w
     = (Return text,
        {| page := page w;
           trace := EvTranslateRequest key englishWord (Resolved response)
                    :: trace w |}))
  /\ (ok response = false ->
      forall detail,
        errorMessage body = inr detail ->
        fst (translateEnglishToKorean env englishWord w)
        = Return (classify ("Translation API error: "
                            ++ match detail with
                               | Some m => m
                               | None => statusText response
                               end))).
Proof.
  intros Hkey Htruthy Hanswer Hjson.
  rewrite (translate_with_key env englishWord w Hkey Htruthy).
  unfold try_catch, translate_try, bind, fetch_translation, response_json.
  rewrite Hanswer. simpl.
  split.
  - intros Hok text Htext. rewrite Hok, Hjson. simpl. rewrite Htext. reflexivity.
  - intros Hok detail Hdetail. rewrite Hok, Hjson. simpl. rewrite Hdetail.
    destruct detail as [m |]; simpl; rewrite translate_catch_eq; reflexivity.
Qed.

Lemma translation_by_response_witness :
  translateEnglishToKorean env_online "apple" world0
  = (Return "사과",
     {| page := initialState;
        trace := [EvTranslateRequest "key" "apple"
                    (Resolved (ok_response (translated "사과")))] |})
  /\ fst (translateEnglishToKorean env_bad_key "apple" world0)
     = Return "번역 실패: API 키가 유효하지 않습니다.".
Proof.
  split.
  - apply (proj1 (@translation_by_response env_online "key" "apple" world0
                    (ok_response (translated "사과")) (translated "사과")
                    eq_refl eq_refl eq_refl eq_refl));
      reflexivity.
  - rewrite (proj2 (@translation_by_response env_bad_key "key" "apple" world0
                      _ _ eq_refl eq_refl eq_refl eq_refl) eq_refl
                   (Some "API key not valid. Please pass a valid API key.")
                   eq_refl).
    vm_compute. reflexivity.
Defined.

(** X6. A load of a count that is not positive makes no request and sets no
    timer: it stores the empty list, shows no word, and reports the
    empty-list error. *)
Theorem empty_session_load env count w :
  (count <= 0)%Z ->
  fst (fetchAndTranslateWords env count w) = Return tt
  /\ trace (snd (fetchAndTranslateWords env count w)) = trace w
  /\ allWordsForSession (page (snd (fetchAndTranslateWords env count w))) = []
  /\ currentWordData (page (snd (fetchAndTranslateWords env count w))) = None
  /\ isLoading (page (snd (fetchAndTranslateWords env count w))) = false
  /\ error (page (snd (fetchAndTranslateWords env count w)))
     = Some "단어를 불러오는 데 실패했습니다. 단어 목록이 비어 있습니다.".
Proof.
  intros Hcount.
  unfold fetchAndTranslateWords.
  replace (Z.to_nat count) with 0 by lia.
  repeat split.
Qed.

Lemma empty_session_load_witness :
  allWordsForSession (page (snd (fetchAndTranslateWords env_online 0 world0))) = []
  /\ error (page (snd (fetchAndTranslateWords env_online 0 world0)))
     = Some "단어를 불러오는 데 실패했습니다. 단어 목록이 비어 있습니다.".
Proof.
  destruct (@empty_session_load env_online 0 world0 ltac:(lia))
    as (_ & _ & Hlist & _ & _ & Herror).
  split; assumption.
Defined.

(** X7. After a load of N >= 1 words the [error] cell holds nothing or the
    partial-failure message, whatever it held before; it holds the message
    only if at least 5 attempt failures were logged during the load.  The
    empty-list error is never reported. *)
Theorem session_load_error_report env count w :
  (1 <= count)%Z ->
  exists evs,
    trace (snd (fetchAndTranslateWords env count w)) = (evs ++ trace w)%list
    /\ (error (page (snd (fetchAndTranslateWords env count w))) = None
        \/ (error (page (snd (fetchAndTranslateWords env count w)))
            = Some "일부 단어 로딩에 실패했습니다. 콘솔을 확인해주세요."
            /\ 5 <= count_events is_attempt_failure evs)).
Proof.
  intros Hcount.
  rewrite fetchAndTranslateWords_trace, (fetchAndTranslateWords_error env w Hcount).
  match goal with
  | |- context [for_loop env ?indices count [] ?w1] =>
      destruct (for_loop_error env indices count [] w1) as (evs & Htrace & Herror)
  end.
  exists evs. split; [exact Htrace |].
  destruct Herror as [Hsame | Hpartial]; [left; exact Hsame | right; exact Hpartial].
Qed.

Lemma session_load_error_report_witness :
  error (page (snd (fetchAndTranslateWords env_online 2
                      (snd (handlePreviousWord world0))))) = None
  /\ error (page (snd (fetchAndTranslateWords env_offline 1 world0)))
     = Some "일부 단어 로딩에 실패했습니다. 콘솔을 확인해주세요.".
Proof.
  split.
  - destruct (@session_load_error_report env_online 2
                (snd (handlePreviousWord world0)) ltac:(lia))
      as (evs & Htrace & [Hnone | [_ Hfive]]); [exact Hnone |].
    exfalso.
    change (trace (snd (handlePreviousWord world0))) with (@nil Event) in Htrace.
    rewrite app_nil_r in Htrace. rewrite <- Htrace in Hfive.
    vm_compute in Hfive. lia.
  - destruct (@session_load_error_report env_offline 1 world0 ltac:(lia))
      as (evs & Htrace & [Hnone | [Hpartial _]]); [| exact Hpartial].
    vm_compute in Hnone. discriminate.
Defined.

(** X8. When the word endpoint always answers [ok] with a readable body and
    the dictionary accepts every word, a load of N >= 1 words fills every slot
    on its first attempt, whatever the translation service does: exactly N
    word round trips, N accepted dictionary round trips and N pauses, no
    failed attempt, N pairs in the list and nothing in [error]. *)
Theorem session_load_first_attempts env count w :
  always_accepting env ->
  (1 <= count)%Z ->
  exists evs,
    trace (snd (fetchAndTranslateWords env count w)) = (evs ++ trace w)%list
    /\ List.length (allWordsForSession
                      (page (snd (fetchAndTranslateWords env count w))))
       = Z.to_nat count
    /\ count_events is_word_request evs = Z.to_nat count
    /\ count_events is_dict_request evs = Z.to_nat count
    /\ count_events is_acceptance evs = Z.to_nat count
    /\ count_events is_delay evs = Z.to_nat count
    /\ count_events is_attempt_failure evs = 0
    /\ error (page (snd (fetchAndTranslateWords env count w))) = None.
Proof.
  intros Haccepting Hcount.
  rewrite fetchAndTranslateWords_trace,
    (fetchAndTranslateWords_error env w Hcount).
  match goal with
  | |- context [for_loop env ?indices count [] ?w1] =>
      destruct (@for_loop_first_attempts env indices count [] w1 Haccepting)
        as (evs & Htrace & Herror & Hw & Hd & Ha & Hdl & Hf)
  end.
  rewrite length_seq in Hw, Hd, Ha, Hdl.
  exists evs. split; [exact Htrace |].
  split.
  { destruct (fetchAndTranslateWords_spec env count w)
      as (fetchedWords & evs0 & w' & Hload & _ & Hlen & Hall & _).
    rewrite Hload. simpl. rewrite Hall. exact Hlen. }
  repeat (split; [assumption |]).
  rewrite Herror. reflexivity.
Qed.

Lemma session_load_first_attempts_witness :
  always_accepting env_bad_key
  /\ exists evs,
       trace (snd (fetchAndTranslateWords env_bad_key 3 world0))
       = (evs ++ trace world0)%list
       /\ List.length (allWordsForSession
                         (page (snd (fetchAndTranslateWords env_bad_key 3 world0))))
          = Z.to_nat 3
       /\ count_events is_word_request evs = Z.to_nat 3
       /\ count_events is_dict_request evs = Z.to_nat 3
       /\ count_events is_acceptance evs = Z.to_nat 3
       /\ count_events is_delay evs = Z.to_nat 3
       /\ count_events is_attempt_failure evs = 0
       /\ error (page (snd (fetchAndTranslateWords env_bad_key 3 world0))) = None.
Proof.
  assert (Haccepting : always_accepting env_bad_key).
  { split.
    - intros history. exists (ok_response "apple"), "apple". repeat split.
    - intros history randomWord. exists (ok_response tt). repeat split. }
  split; [exact Haccepting |].
  apply (@session_load_first_attempts env_bad_key 3 world0 Haccepting). lia.
Defined.

(** X9. Whatever the services answer and whatever the user does to the
    rendered controls, starting from the first render: no load is left
    running, the screen is the setup screen or screen 2 or 3 with the cursor
    on a word of the session list and that word displayed, the component
    never renders the loading, "unavailable" or "unknown" view between two
    actions, and the "이전 단어가 없습니다." error is never raised, because the
    previous button is disabled at cursor 0. *)
Theorem user_session_invariant env clicks :
  session_invariant (page (user_run env clicks world0))
  /\ match render (page (user_run env clicks world0)) with
     | LoadingView _ | UnavailableView | UnknownView => False
     | SetupView _ _ _ _ | WordView _ _ _ _ _ _ | FinishedView => True
     end.
Proof.
  assert (Hinv : session_invariant (page (user_run env clicks world0))).
  { apply user_run_invariant. repeat split; [discriminate | left; reflexivity]. }
  split; [exact Hinv |].
  destruct Hinv as (Hloading & _ & [Hsetup | [[Hword | Hfinished] Hbrowse]]).
  - unfold render. rewrite Hsetup. exact I.
  - destruct (render_browsing Hword Hloading Hbrowse) as (data & _ & ->). exact I.
  - unfold render. rewrite Hfinished. exact I.
Qed.

(** Such a run: 2 words, a refused "previous" at cursor 0, then on to the
    finished screen and the test. *)
Example user_session_run :
  let w := user_run env_online
             [ChangeCount 2; ClickStart; ClickPrevious; ClickNext; ClickNext;
              ClickNext; ClickTest] world0 in
  render (page w) = FinishedView
  /\ currentWordIndex (page w) = 1%Z
  /\ error (page w) = None
  /\ hd_error (trace w)
     = Some (EvNavigate "/test"
               (Some [{| english := "apple"; korean := "사과" |};
                      {| english := "apple"; korean := "사과" |}])).
Proof. vm_compute. repeat split. Qed.

(** X10. On screen 2, with no load running and the browsing invariant, the
    component shows the word under the cursor with its translation, the
    counter "cursor+1/length", the previous button disabled exactly at
    cursor 0 and the next button never disabled. *)
Theorem word_screen_shows_cursor s :
  currentScreen s = 2%Z ->
  isLoading s = false ->
  browsing_invariant s ->
  exists data,
    nth_error (allWordsForSession s) (Z.to_nat (currentWordIndex s)) = Some data
    /\ render s
       = WordView (string_of_Z (currentWordIndex s + 1) ++ "/"
                   ++ string_of_nat (List.length (allWordsForSession s)))
                  (currentWordIndex s =? 0)%Z
                  (english data) (korean data) false
                  (shown_error (error s)).
Proof.
  intros Hscreen Hloading Hbrowse.
  exact (render_browsing Hscreen Hloading Hbrowse).
Qed.

Lemma word_screen_shows_cursor_witness :
  exists data,
    nth_error (allWordsForSession (page (snd (handleNextWord world_browsing))))
      (Z.to_nat (currentWordIndex (page (snd (handleNextWord world_browsing)))))
    = Some data
    /\ render (page (snd (handleNextWord world_browsing)))
       = WordView "2/3" false (english data) (korean data) false None.
Proof.
  destruct (@word_screen_shows_cursor (page (snd (handleNextWord world_browsing))))
    as (data & Hnth & Hview).
  - vm_compute. reflexivity.
  - vm_compute. reflexivity.
  - split; vm_compute; [split; [discriminate | reflexivity] | reflexivity].
  - exists data. split; [exact Hnth |]. rewrite Hview. vm_compute. reflexivity.
Defined.

(** X11. Browsing back and forth is a round trip.  From a cursor that is not
    the last, "next" then "previous" restores the cursor and the displayed
    word; from a cursor that is not 0, so do "previous" then "next".  Either
    way the list, the screen and the trace are untouched and [error] ends up
    cleared. *)
Theorem navigation_round_trip w :
  browsing_invariant (page w) ->
  ((currentWordIndex (page w) + 1
    < Z.of_nat (List.length (allWordsForSession (page w))))%Z ->
   let w' := snd (handlePreviousWord (snd (handleNextWord w))) in
   currentWordIndex (page w') = currentWordIndex (page w)
   /\ currentWordData (page w') = currentWordData (page w)
   /\ allWordsForSession (page w') = allWordsForSession (page w)
   /\ currentScreen (page w') = currentScreen (page w)
   /\ trace w' = trace w
   /\ error (page w') = None)
  /\ ((0 < currentWordIndex (page w))%Z ->
      let w' := snd (handleNextWord (snd (handlePreviousWord w))) in
      currentWordIndex (page w') = currentWordIndex (page w)
      /\ currentWordData (page w') = currentWordData (page w)
      /\ allWordsForSession (page w') = allWordsForSession (page w)
      /\ currentScreen (page w') = currentScreen (page w)
      /\ trace w' = trace w
      /\ error (page w') = None).
Proof.
  intros [Hrange Hdata]. split.
  - intros Hnext. unfold handleNextWord at 1. unfold bind, gets.
    rewrite (proj2 (Z.ltb_lt _ _) Hnext). simpl.
    unfold handlePreviousWord, bind, gets. simpl.
    destruct (currentWordIndex (page w) + 1 >? 0)%Z eqn:Hpos;
      [| rewrite Z.gtb_ltb in Hpos; apply Z.ltb_ge in Hpos; lia].
    simpl. replace (currentWordIndex (page w) + 1 - 1)%Z
      with (currentWordIndex (page w)) by lia.
    repeat split. symmetry. exact Hdata.
  - intros Hprev. unfold handlePreviousWord at 1. unfold bind, gets.
    rewrite (proj2 (Z.gtb_lt _ _) Hprev). simpl.
    unfold handleNextWord, bind, gets. simpl.
    replace (currentWordIndex (page w) - 1 + 1)%Z
      with (currentWordIndex (page w)) by lia.
    rewrite (proj2 (Z.ltb_lt _ _) (proj2 Hrange)). simpl.
    repeat split. symmetry. exact Hdata.
Qed.

Lemma navigation_round_trip_witness :
  currentWordIndex
    (page (snd (handlePreviousWord (snd (handleNextWord world_browsing))))) = 0%Z
  /\ currentWordIndex
       (page (snd (handleNextWord
                     (snd (handlePreviousWord
                             (snd (handleNextWord world_browsing))))))) = 1%Z.
Proof.
  assert (Hstart : browsing_invariant (page world_browsing)).
  { split; vm_compute; [split; [discriminate | reflexivity] | reflexivity]. }
  assert (Hnext : browsing_invariant (page (snd (handleNextWord world_browsing)))).
  { split; vm_compute; [split; [discriminate | reflexivity] | reflexivity]. }
  split.
  - apply (proj1 (navigation_round_trip world_browsing Hstart)).
    vm_compute. reflexivity.
  - apply (proj2 (navigation_round_trip (snd (handleNextWord world_browsing))
                    Hnext)).
    vm_compute. reflexivity.
Defined.

(** X12. A count that is not positive never starts a load, whatever the
    credential: after such a value is entered, Start only alerts
    "학습할 단어 수를 1개 이상 입력해주세요!"; no request is made and the state is
    as the change of the field left it. *)
Theorem start_requires_positive_count env value w :
  (value <= 0)%Z ->
  handleStartClick env (snd (handleWordCountChange value w))
  = (Return tt,
     {| page := page (snd (handleWordCountChange value w));
        trace := EvAlert "학습할 단어 수를 1개 이상 입력해주세요!" :: trace w |}).
Proof.
  intros Hvalue.
  unfold handleStartClick, handleWordCountChange, setWordCount, modify, bind,
    gets, alert, emit.
  simpl. rewrite (proj2 (Z.leb_le _ _) Hvalue). reflexivity.
Qed.

Lemma start_requires_positive_count_witness :
  handleStartClick env_online (snd (handleWordCountChange (-2) world0))
  = (Return tt,
     {| page := page (snd (handleWordCountChange (-2) world0));
        trace := EvAlert "학습할 단어 수를 1개 이상 입력해주세요!" :: trace world0 |}).
Proof.
  apply (@start_requires_positive_count env_online (-2)%Z world0). lia.
Defined.

(** X13. The test screen receives the session list as loaded.  After a
    started load of N words and any browsing with the two arrows,
    handleTestClick navigates to "/test" with exactly the N pairs the load
    stored, placeholders included, and changes nothing in the component. *)
Theorem test_receives_session_list env w arrows :
  (1 <= wordCount (page w))%Z ->
  key_missing (GOOGLE_TRANSLATE_API_KEY env) = false ->
  Forall (fun click => click = ClickNext \/ click = ClickPrevious) arrows ->
  let w1 := snd (handleStartClick env w) in
  let w2 := user_run env arrows w1 in
  handleTestClick w2
  = (Return tt,
     {| page := page w2;
        trace := EvNavigate "/test" (Some (allWordsForSession (page w1)))
                 :: trace w2 |})
  /\ List.length (allWordsForSession (page w1)) = Z.to_nat (wordCount (page w)).
Proof.
  intros Hcount Hkey Harrows w1 w2.
  destruct (handleStartClick_started env w Hcount Hkey)
    as (_ & _ & _ & _ & Hlen & _).
  split; [| exact Hlen].
  assert (Hlist : allWordsForSession (page w2) = allWordsForSession (page w1)).
  { subst w2. generalize w1. clear Hlen.
    induction Harrows as [| click arrows Hclick _ IH]; intros w0;
      [reflexivity |].
    simpl. rewrite IH. unfold user_step.
    destruct (enabled (render (page w0)) click); [| reflexivity].
    destruct (navigation_keeps_list w0) as (Hn & Hp & _).
    destruct Hclick as [-> | ->]; assumption. }
  unfold handleTestClick, bind, gets, navigate, emit. rewrite Hlist. reflexivity.
Qed.

Lemma test_receives_session_list_witness :
  hd_error (trace (snd (handleTestClick
                          (user_run env_bad_key [ClickNext; ClickNext]
                             (snd (handleStartClick env_bad_key
                                     (snd (handleWordCountChange 2 world0))))))))
  = Some (EvNavigate "/test"
            (Some [{| english := "apple";
                      korean := "번역 실패: API 키가 유효하지 않습니다." |};
                   {| english := "apple";
                      korean := "번역 실패: API 키가 유효하지 않습니다." |}])).
Proof.
  destruct (@test_receives_session_list env_bad_key
              (snd (handleWordCountChange 2 world0)) [ClickNext; ClickNext])
    as (Htest & _).
  - vm_compute. discriminate.
  - reflexivity.
  - repeat constructor.
  - rewrite Htest. vm_compute. reflexivity.
Defined.

(** X14. The placeholder pair.  Its source is "오류 단어".  Its target is
    "로딩 실패: " and "..." around the error message when that has at most 30
    UTF-16 code units, around its first 30 code units when it has more, and
    around "알 수 없는 오류" when it is empty.  The first 30 code units are a
    prefix of the message, or, when the cut falls inside a surrogate pair, a
    prefix followed by the high surrogate of that pair.  The two messages
    fetchWordFromAPI constructs itself fit and are shown whole. *)
Theorem placeholder_truncation e :
  english (placeholder e) = "오류 단어"
  /\ (message e = EmptyString ->
      korean (placeholder e) = "로딩 실패: 알 수 없는 오류...")
  /\ (message e <> EmptyString ->
      utf16_length (message e) <= 30 ->
      korean (placeholder e) = "로딩 실패: " ++ message e ++ "...")
  /\ (30 <= utf16_length (message e) ->
      exists shown,
        korean (placeholder e) = "로딩 실패: " ++ shown ++ "..."
        /\ utf16_length shown = 30
        /\ ((exists rest, message e = shown ++ rest)
            \/ (exists before c rest,
                  message e = before ++ String c rest
                  /\ utf8_width c = 4
                  /\ shown = before ++ lone_high_surrogate c rest))).
Proof.
  split; [reflexivity |]. unfold placeholder, substring0. simpl korean.
  split; [| split].
  - intros ->. reflexivity.
  - intros Hnonempty Hshort.
    destruct (message e) as [| c rest] eqn:Hmessage; [congruence |].
    simpl truthy. cbv iota.
    rewrite (@utf16_prefix_whole (String c rest) 30 0 Hshort). reflexivity.
  - intros Hlong.
    exists (utf16_prefix 30 0 (message e)).
    split; [| split].
    + destruct (message e) as [| c tail] eqn:Hmessage;
        [cbv in Hlong; lia | reflexivity].
    + apply (@utf16_prefix_count (message e) 30 0 Hlong).
    + apply utf16_prefix_shape.
Qed.

Lemma placeholder_truncation_witness :
  korean (placeholder (Error "Could not fetch a random word."))
  = "로딩 실패: Could not fetch a random word...."
  /\ korean (placeholder (Error "번역 실패: API 키가 유효하지 않습니다."))
     = "로딩 실패: 번역 실패: API 키가 유효하지 않습니다...."
  /\ exists shown,
       korean (placeholder (Error "Unexpected token < in JSON at position 0"))
       = "로딩 실패: " ++ shown ++ "..."
       /\ utf16_length shown = 30.
Proof.
  split; [| split].
  - apply (proj1 (proj2 (proj2 (placeholder_truncation
                                  (Error "Could not fetch a random word."))))).
    + discriminate.
    + vm_compute. lia.
  - apply (proj1 (proj2 (proj2 (placeholder_truncation
                                  (Error "번역 실패: API 키가 유효하지 않습니다."))))).
    + discriminate.
    + vm_compute. lia.
  - destruct (proj2 (proj2 (proj2 (placeholder_truncation
                                     (Error "Unexpected token < in JSON at position 0")))))
      as (shown & Htarget & Hlen & _).
    + vm_compute. lia.
    + exists shown. split; assumption.
Defined.

(** Code units, not bytes or characters: a cut inside the surrogate pair of
    U+1F600 leaves its high surrogate U+D83D. *)
Example substring0_code_units :
  utf16_length "번역 실패" = 5
  /\ substring0 3 "번역 실패" = "번역 "
  /\ utf16_length (String "a" (String (ascii_of_nat 240) (String (ascii_of_nat 159)
                     (String (ascii_of_nat 152) (String (ascii_of_nat 128) "b")))))
     = 4
  /\ substring0 2 (String "a" (String (ascii_of_nat 240) (String (ascii_of_nat 159)
                     (String (ascii_of_nat 152) (String (ascii_of_nat 128) "b")))))
     = String "a" (String (ascii_of_nat 237) (String (ascii_of_nat 160)
         (String (ascii_of_nat 189) EmptyString))).
Proof. vm_compute. repeat split. Qed.

(** X15. Once Start has begun a load (count field N >= 1, credential
    present), the component is on screen 2 showing the first pair of the new
    list with the counter "1/N", the previous button disabled, and as error
    text nothing or the partial-failure message. *)
Theorem first_word_shown env w :
  (1 <= wordCount (page w))%Z ->
  key_missing (GOOGLE_TRANSLATE_API_KEY env) = false ->
  exists data errorText,
    nth_error (allWordsForSession (page (snd (handleStartClick env w)))) 0
    = Some data
    /\ render (page (snd (handleStartClick env w)))
       = WordView ("1/" ++ string_of_nat (Z.to_nat (wordCount (page w))))
                  true (english data) (korean data) false errorText
    /\ (errorText = None
        \/ errorText = Some "일부 단어 로딩에 실패했습니다. 콘솔을 확인해주세요.").
Proof.
  intros Hcount Hkey.
  destruct (handleStartClick_started env w Hcount Hkey)
    as (Hscreen & Hloading & Hindex & _ & Hlen & Hbrowse & Herror).
  destruct (render_browsing Hscreen Hloading Hbrowse) as (data & Hnth & Hview).
  rewrite Hindex in Hnth, Hview. rewrite Hlen in Hview.
  exists data, (shown_error (error (page (snd (handleStartClick env w))))).
  split; [exact Hnth |]. split; [exact Hview |].
  destruct Herror as [-> | ->]; [left | right]; reflexivity.
Qed.

Lemma first_word_shown_witness :
  render (page world_browsing)
  = WordView "1/3" true "apple" "사과" false None.
Proof.
  destruct (@first_word_shown env_online (snd (handleWordCountChange 3 world0)))
    as (data & errorText & Hnth & Hview & Herror).
  - vm_compute. discriminate.
  - reflexivity.
  - unfold world_browsing. rewrite Hview.
    vm_compute in Hnth. injection Hnth as <-.
    assert (HerrorText : errorText = None).
    { assert (Hshown : match render (page world_browsing) with
                       | WordView _ _ _ _ _ shown => shown = None
                       | _ => False
                       end) by (vm_compute; reflexivity).
      unfold world_browsing in Hshown. rewrite Hview in Hshown. exact Hshown. }
    rewrite HerrorText. vm_compute. reflexivity.
Defined.
